(** * HeyGen_status: simulated translation server and polling strategies

    A shallow embedding of
    - the server (POST /create and GET /status over the [videos] object),
    - [exponentialStrategy] (client/strategies/exponential.js),
    - [expectedTimeStrategy] (client/strategies/expectedTime.js),
    followed by the properties of the specification that concern them.

    JavaScript numbers are modelled by exact rationals [Q] plus an explicit
    NaN; binary64 rounding, the infinities and negative zero are not
    modelled.  [Date.now()] readings are integers ([Z]).  [Math.random()] and
    [Date.now()] are inputs of the functions that call them. *)

From Stdlib Require Import ZArith QArith Qminmax Qround Qabs.
From Stdlib Require Import String Ascii List Bool Lia Lqa Psatz DecimalString.
From stdpp Require Import gmap strings.
Import ListNotations.

Local Open Scope Z_scope.

(** ** JavaScript values and the coercions the sources rely on *)

Module JS.

Inductive value : Type :=
| VUndefined
| VNumber (q : Q)
| VNaN
| VString (s : string).

(** A thrown value: [new Error(message)]. *)
Inductive exn : Type :=
| Error (message : string).

(** *** Numeric text *)

Definition digit_of (c : ascii) : option Z :=
  let n := Z.of_N (N_of_ascii c) in
  if (48 <=? n) && (n <=? 57) then Some (n - 48) else None.

(** Reads the leading decimal digits of [s]: the number read so far, how
    many digits were read, and the rest of the text. *)
Fixpoint read_digits (acc : Z) (count : nat) (s : string) : Z * nat * string :=
  match s with
  | String c rest =>
      match digit_of c with
      | Some d => read_digits (10 * acc + d) (S count) rest
      | None => (acc, count, s)
      end
  | EmptyString => (acc, count, s)
  end.

Definition is_white (c : ascii) : bool :=
  let n := N_of_ascii c in
  ((n =? 32) || (n =? 9) || (n =? 10) || (n =? 11) || (n =? 12) || (n =? 13))%N.

Fixpoint skip_white (s : string) : string :=
  match s with
  | String c rest => if is_white c then skip_white rest else s
  | EmptyString => s
  end.

Definition read_sign (s : string) : Z * string :=
  match s with
  | String "-" rest => (-1, rest)
  | String "+" rest => (1, rest)
  | _ => (1, s)
  end.

Definition read_fraction (s : string) : Z * nat * string :=
  match s with
  | String "." rest => read_digits 0 0%nat rest
  | _ => (0, 0%nat, s)
  end.

(** The exponent part [e±ddd]; [None] when an [e] is not followed by digits. *)
Definition read_exponent (s : string) : option (Z * string) :=
  match s with
  | String c rest =>
      if (Ascii.eqb c "e" || Ascii.eqb c "E")%bool then
        let '(sg, rest1) := read_sign rest in
        let '(e, n, rest2) := read_digits 0 0%nat rest1 in
        match n with
        | O => None
        | S _ => Some (sg * e, rest2)
        end
      else Some (0, s)
  | EmptyString => Some (0, s)
  end.

(** The value of [c] as a digit of the given radix (2, 8 or 16). *)
Definition radix_digit_of (radix : Z) (c : ascii) : option Z :=
  let n := Z.of_N (N_of_ascii c) in
  let d :=
    if (48 <=? n) && (n <=? 57) then n - 48
    else if (97 <=? n) && (n <=? 102) then n - 87
    else if (65 <=? n) && (n <=? 70) then n - 55
    else radix in
  if d <? radix then Some d else None.

Fixpoint read_radix_digits (radix acc : Z) (count : nat) (s : string)
  : Z * nat * string :=
  match s with
  | String c rest =>
      match radix_digit_of radix c with
      | Some d => read_radix_digits radix (radix * acc + d) (S count) rest
      | None => (acc, count, s)
      end
  | EmptyString => (acc, count, s)
  end.

(** The prefix [0x], [0o] or [0b] of a literal in another radix: the radix
    and the rest of the text. *)
Definition read_radix_prefix (s : string) : option (Z * string) :=
  match s with
  | String "0" (String c rest) =>
      if (Ascii.eqb c "x" || Ascii.eqb c "X")%bool then Some (16, rest)
      else if (Ascii.eqb c "o" || Ascii.eqb c "O")%bool then Some (8, rest)
      else if (Ascii.eqb c "b" || Ascii.eqb c "B")%bool then Some (2, rest)
      else None
  | _ => None
  end.

(** StringToNumber: optional white space around either an unsigned literal
    in radix 16, 8 or 2, or a decimal literal (sign, digits with an optional
    fraction and exponent).  The empty text is 0, anything else is NaN.
    (The numbers of this model have no infinities: the literal [Infinity]
    is outside the model and reads as NaN here.) *)
Definition StringToNumber (s : string) : option Q :=
  let s0 := skip_white s in
  match s0 with
  | EmptyString => Some 0%Q
  | _ =>
      match read_radix_prefix s0 with
      | Some (radix, r1) =>
          let '(n, count, r2) := read_radix_digits radix 0 0%nat r1 in
          match count, skip_white r2 with
          | S _, EmptyString => Some (inject_Z n)
          | _, _ => None
          end
      | None =>
          let '(sg, s1) := read_sign s0 in
          let '(ip, ni, s2) := read_digits 0 0%nat s1 in
          let '(fp, nf, s3) := read_fraction s2 in
          match (ni + nf)%nat with
          | O => None
          | S _ =>
              match read_exponent s3 with
              | None => None
              | Some (e, s4) =>
                  match skip_white s4 with
                  | EmptyString =>
                      let mant :=
                        (inject_Z ip + inject_Z fp / inject_Z (10 ^ Z.of_nat nf))%Q in
                      Some (Qred (inject_Z sg * mant * Qpower 10 e))
                  | _ => None
                  end
              end
          end
      end
  end.

Definition Z_to_string (z : Z) : string :=
  NilZero.string_of_int (Z.to_int z).

(** Fraction digits of [num / den] (with [0 <= num < den]) by long
    division, at most [fuel] of them. *)
Fixpoint fraction_digits (fuel : nat) (num den : Z) : string :=
  match fuel with
  | O => EmptyString
  | S fuel' =>
      if num =? 0 then EmptyString
      else
        let d := (10 * num) / den in
        String.append (Z_to_string d) (fraction_digits fuel' ((10 * num) mod den) den)
  end.

(** Number::toString.  An integral number prints as its decimal digits; a
    fractional one as integer part, point and fraction digits (the exact
    expansion, cut after 20 digits; exponent notation is not modelled). *)
Definition NumberToString (q : Q) : string :=
  let n := Qnum q in
  let d := Zpos (Qden q) in
  if n mod d =? 0 then Z_to_string (n / d)
  else
    let a := Z.abs n in
    String.append (if n <? 0 then "-" else "")
      (String.append (Z_to_string (a / d))
         (String.append "." (fraction_digits 20 (a mod d) d))).

Definition ToString (v : value) : string :=
  match v with
  | VUndefined => "undefined"
  | VNumber q => NumberToString q
  | VNaN => "NaN"
  | VString s => s
  end.

Definition ToNumber (v : value) : option Q :=
  match v with
  | VUndefined => None
  | VNumber q => Some q
  | VNaN => None
  | VString s => StringToNumber s
  end.

Definition truthy (v : value) : bool :=
  match v with
  | VUndefined => false
  | VNumber q => negb (Qeq_bool q 0)
  | VNaN => false
  | VString s => negb (String.eqb s "")
  end.

(** *** Operators *)

Definition arith (f : Q -> Q -> Q) (a b : value) : value :=
  match ToNumber a, ToNumber b with
  | Some x, Some y => VNumber (f x y)
  | _, _ => VNaN
  end.

(** [a - b] and [a * b] convert both operands to numbers. *)
Definition sub : value -> value -> value := arith Qminus.
Definition mul : value -> value -> value := arith Qmult.

(** [a + b] concatenates as soon as one operand is a string. *)
Definition add (a b : value) : value :=
  match a, b with
  | VString _, _ | _, VString _ => VString (String.append (ToString a) (ToString b))
  | _, _ => arith Qplus a b
  end.

(** [a > b]: two strings compare as text, otherwise as numbers, and a
    comparison with NaN is false. *)
Definition gt (a b : value) : bool :=
  match a, b with
  | VString s, VString t => String.ltb t s
  | _, _ =>
      match ToNumber a, ToNumber b with
      | Some x, Some y => negb (Qle_bool x y)
      | _, _ => false
      end
  end.

(** [a >= b] *)
Definition ge (a b : value) : bool :=
  match a, b with
  | VString s, VString t => negb (String.ltb s t)
  | _, _ =>
      match ToNumber a, ToNumber b with
      | Some x, Some y => Qle_bool y x
      | _, _ => false
      end
  end.

(** [a || b] *)
Definition or (a b : value) : value := if truthy a then a else b.

Definition Math_floor (v : value) : value :=
  match ToNumber v with
  | Some q => VNumber (inject_Z (Qfloor q))
  | None => VNaN
  end.

End JS.

(** ** The server: server/server.js *)

Module Server.

(** [process.env]: a variable is unset or holds a text. *)
Record Env : Type := {
  env_MIN_DELAY : option string;
  env_MAX_DELAY : option string;
  env_ERROR_RATE : option string
}.

Definition getenv (v : option string) : JS.value :=
  match v with
  | Some s => JS.VString s
  | None => JS.VUndefined
  end.

(** [const MIN_DELAY = process.env.MIN_DELAY || 5000] and its siblings. *)
Definition MIN_DELAY (env : Env) : JS.value :=
  JS.or (getenv (env_MIN_DELAY env)) (JS.VNumber 5000).
Definition MAX_DELAY (env : Env) : JS.value :=
  JS.or (getenv (env_MAX_DELAY env)) (JS.VNumber 50000).
Definition ERROR_RATE (env : Env) : JS.value :=
  JS.or (getenv (env_ERROR_RATE env)) (JS.VNumber (3 # 100)).

Inductive Status : Type := pending | completed | error.

Definition status_name (s : Status) : string :=
  match s with
  | pending => "pending"
  | completed => "completed"
  | error => "error"
  end.

(** An entry of [videos]. *)
Record Job : Type := {
  startTime : Z;
  delay : JS.value;
  status : Status
}.

(** [videos] is a plain object: besides its own entries, a read sees the
    properties of [Object.prototype]. *)
Definition Object_prototype : list string :=
  [ "constructor"; "__proto__"; "hasOwnProperty"; "isPrototypeOf";
    "propertyIsEnumerable"; "toLocaleString"; "toString"; "valueOf";
    "__defineGetter__"; "__defineSetter__"; "__lookupGetter__";
    "__lookupSetter__" ]%string.

Inductive Property : Type :=
| Own (job : Job)
| Inherited
| Absent.

(** [videos[videoID]] *)
Definition get (videos : gmap string Job) (videoID : string) : Property :=
  match videos !! videoID with
  | Some job => Own job
  | None =>
      if existsb (String.eqb videoID) Object_prototype then Inherited else Absent
  end.

Inductive Response : Type :=
| Json400 (error : string)
| Json404 (error : string)
| JsonCreated (videoID message : string)
| JsonResult (result : JS.value).

(** Line 68: the random delay, from the two constants and the result of
    [Math.random()].  The arithmetic is exact: where binary64 rounds the
    product or the sum up to the next integer, the code's delay is one more
    than this one. *)
Definition random_delay (MIN_DELAY MAX_DELAY : JS.value) (random : Q) : JS.value :=
  JS.Math_floor
    (JS.add
       (JS.mul (JS.VNumber random)
          (JS.add (JS.sub MAX_DELAY MIN_DELAY) (JS.VNumber 1)))
       MIN_DELAY).

(** Line 69: the initial status. *)
Definition random_status (ERROR_RATE : JS.value) (random : Q) : Status :=
  if JS.gt (JS.VNumber random) ERROR_RATE then pending else error.

(** POST /create.  [videoID] is [req.body?.videoID], absent or a text (a
    body whose [videoID] is a number, an array or an object is outside the
    model); [random1] and [random2] are the two results of [Math.random()],
    [now] is [Date.now()]. *)
Definition create (env : Env) (videos : gmap string Job)
    (videoID : option string) (random1 random2 : Q) (now : Z)
  : gmap string Job * Response :=
  match videoID with
  | None => (videos, Json400 "videoID is required in the request body")
  | Some id =>
      if negb (JS.truthy (JS.VString id)) then
        (videos, Json400 "videoID is required in the request body")
      else
        let delay := random_delay (MIN_DELAY env) (MAX_DELAY env) random1 in
        let status := random_status (ERROR_RATE env) random2 in
        match get videos id with
        | Own _ | Inherited =>
            (videos,
             Json400 (String.append "VideoID '"
                        (String.append id
                           "' already exists. Please choose a different ID.")))
        | Absent =>
            (<[id := {| startTime := now; delay := delay; status := status |}]> videos,
             JsonCreated id
               (String.append
                  "Video translation added. Check status using /status?videoID=" id))
        end
  end.

(** Line 119: [elapsedTime >= video.delay && video.status === "pending"]. *)
Definition due (video : Job) (now : Z) : bool :=
  let elapsedTime := now - startTime video in
  JS.ge (JS.VNumber (inject_Z elapsedTime)) (delay video)
  && match status video with pending => true | _ => false end.

(** GET /status.  [videoID] is [req.query.videoID], absent or a text. *)
Definition getStatus (videos : gmap string Job) (videoID : option string) (now : Z)
  : gmap string Job * Response :=
  match videoID with
  | None => (videos, Json404 "Video not found")
  | Some id =>
      if negb (JS.truthy (JS.VString id)) then (videos, Json404 "Video not found")
      else
        match get videos id with
        | Absent => (videos, Json404 "Video not found")
        | Inherited => (videos, JsonResult JS.VUndefined)
        | Own video =>
            if due video now then
              let video' :=
                {| startTime := startTime video; delay := delay video;
                   status := completed |} in
              (<[id := video']> videos,
               JsonResult (JS.VString (status_name (status video'))))
            else (videos, JsonResult (JS.VString (status_name (status video))))
        end
  end.

Inductive Request : Type :=
| PostCreate (videoID : option string) (random1 random2 : Q) (now : Z)
| GetStatus (videoID : option string) (now : Z).

Definition handle (env : Env) (videos : gmap string Job) (r : Request)
  : gmap string Job * Response :=
  match r with
  | PostCreate videoID random1 random2 now => create env videos videoID random1 random2 now
  | GetStatus videoID now => getStatus videos videoID now
  end.

(** The store after a sequence of requests. *)
Definition serve (env : Env) (videos : gmap string Job) (rs : list Request)
  : gmap string Job :=
  fold_left (fun vs r => fst (handle env vs r)) rs videos.

End Server.

(** ** The client strategies *)

Module Client.

Local Open Scope Q_scope.

(** What [await client.checkStatus(videoID)] yields. *)
Inductive CheckResult : Type :=
| Returned (status : JS.value)
| Thrown (error : JS.exn).

Inductive Promise : Type :=
| Unsettled
| Fulfilled (v : JS.value)
| Rejected (e : JS.exn).

(** What one run of [poll] does to the outside. *)
Inductive Effect : Type :=
| Resolve (v : JS.value)
| Reject (e : JS.exn)
| SetTimeout (interval : Q).

(** A queued call of [poll]: the direct call [poll()] or a timer. *)
Inductive Task : Type :=
| Immediate
| After (interval : Q).

(** [status === text] *)
Definition strict_eq (status : JS.value) (text : string) : bool :=
  match status with
  | JS.VString s => String.eqb s text
  | _ => false
  end.

(** The first [resolve] or [reject] settles the promise, later ones are
    ignored. *)
Definition settle (p : Promise) (e : Effect) : Promise :=
  match p, e with
  | Unsettled, Resolve v => Fulfilled v
  | Unsettled, Reject x => Rejected x
  | _, _ => p
  end.

Definition timers (effects : list Effect) : list Task :=
  flat_map (fun e => match e with SetTimeout d => [After d] | _ => [] end) effects.

(** The observable course of a strategy call: the promise it returned, how
    many times [client.checkStatus] was called, the intervals of the timers
    that fired, and the calls of [poll] still queued. *)
Record Run : Type := {
  promise : Promise;
  checks : nat;
  waits : list Q;
  queued : list Task
}.

Section EventLoop.
Context {State Input : Type}.
Variable poll : State -> Input -> list Effect * State.

Definition after_cycle (t : Task) (effects : list Effect) (r : Run)
    (rest : list Task) : Run :=
  {| promise := fold_left settle effects (promise r);
     checks := S (checks r);
     waits := match t with
              | Immediate => waits r
              | After d => waits r ++ [d]
              end;
     queued := rest ++ timers effects |}.

(** Runs the queued calls of [poll] in order, each consuming the next
    answer of the environment, until no call is queued or the answers are
    used up. *)
Fixpoint loop (st : State) (script : list Input) (r : Run) : Run :=
  match script with
  | [] => r
  | i :: script' =>
      match queued r with
      | [] => r
      | t :: rest =>
          let '(effects, st') := poll st i in
          loop st' script' (after_cycle t effects r rest)
      end
  end.

Definition start : Run :=
  {| promise := Unsettled; checks := 0; waits := []; queued := [Immediate] |}.
End EventLoop.

(** *** Observing a run *)

(** A status that is neither 'completed' nor 'error'. *)
Definition nonterminal (r : CheckResult) : bool :=
  match r with
  | Returned status =>
      negb (strict_eq status "completed") && negb (strict_eq status "error")
  | Thrown _ => false
  end.

Definition task_interval (t : Task) : list Q :=
  match t with
  | Immediate => []
  | After d => [d]
  end.

(** The intervals of all timers set so far, fired or still queued. *)
Definition delays (r : Run) : list Q :=
  waits r ++ flat_map task_interval (queued r).

(** The state after the cycles that consume [script]. *)
Definition advance {State Input : Type} (poll : State -> Input -> list Effect * State)
    (st : State) (script : list Input) : State :=
  fold_left (fun st i => snd (poll st i)) script st.

(** The intervals computed along a script whose answers are non-terminal,
    [interval] being the interval a cycle passes to [setTimeout]. *)
Fixpoint intervals {State Input : Type} (poll : State -> Input -> list Effect * State)
    (interval : State -> Input -> Q) (st : State) (script : list Input) : list Q :=
  match script with
  | [] => []
  | i :: script' => interval st i :: intervals poll interval (snd (poll st i)) script'
  end.

(** *** exponentialStrategy *)

Record ExponentialOptions : Type := {
  initialInterval : option Q;
  stableInterval : option Q
}.

(** [option || fallback] on a number or undefined option. *)
Definition or_default (option : option Q) (fallback : Q) : Q :=
  match option with
  | Some q => if JS.truthy (JS.VNumber q) then q else fallback
  | None => fallback
  end.

(** Lines 33-53; the state is the variable [interval]. *)
Definition exponential_poll (stableInterval : Q) (interval : Q) (r : CheckResult)
  : list Effect * Q :=
  match r with
  | Returned status =>
      if strict_eq status "completed" then
        ([Resolve (JS.VString "completed")], interval)
      else if strict_eq status "error" then
        ([Reject (JS.Error "Error in video translation.")], interval)
      else
        ([SetTimeout interval], Qmin (interval * 2) stableInterval)
  | Thrown error => ([Reject error], interval)
  end.

Definition exponentialStrategy (options : ExponentialOptions)
    (script : list CheckResult) : Run :=
  let initialInterval := or_default (initialInterval options) 1000 in
  let stableInterval := or_default (stableInterval options) 8000 in
  loop (exponential_poll stableInterval) initialInterval script start.

(** *** expectedTimeStrategy *)

Record Coefficients : Type := { a : Q; b : Q; c : Q }.

Record ExpectedTimeOptions : Type := {
  expectedCompletionTime : option Q;
  coefficients : option Coefficients;
  minimumInterval : option Q;
  maximumInterval : option Q;
  jobStartTime : option Q
}.

(** A destructuring default applies to an undefined option only. *)
Definition default {A : Type} (option : option A) (fallback : A) : A :=
  match option with
  | Some x => x
  | None => fallback
  end.

(** The destructured options of one call. *)
Record Settings : Type := {
  s_expectedCompletionTime : Q;
  s_coefficients : Coefficients;
  s_minimumInterval : Q;
  s_maximumInterval : Q;
  s_jobStartTime : Q
}.

(** Line 418. *)
Definition timeRemaining (s : Settings) (elapsedTime : Q) : Q :=
  Qmax 0 (s_expectedCompletionTime s - elapsedTime).

(** Line 422: the quadratic formula. *)
Definition quadratic (s : Settings) (t : Q) : Q :=
  a (s_coefficients s) * t ^ 2 + b (s_coefficients s) * t + c (s_coefficients s).

(** Line 425: the interval passed to [setTimeout]. *)
Definition interval_at (s : Settings) (elapsedTime : Q) : Q :=
  let interval := quadratic s (timeRemaining s elapsedTime) in
  Qmax (s_minimumInterval s) (Qmin interval (s_maximumInterval s)).

(** Lines 406-437; an answer of the environment is the result of
    [checkStatus] and the reading of [Date.now()]. *)
Definition expectedTime_poll (s : Settings) (st : unit) (i : CheckResult * Z)
  : list Effect * unit :=
  let '(r, currentTime) := i in
  match r with
  | Returned status =>
      if strict_eq status "completed" then
        ([Resolve (JS.VString "completed")], st)
      else if strict_eq status "error" then
        ([Reject (JS.Error "Error in video translation.")], st)
      else
        let elapsedTime := inject_Z currentTime - s_jobStartTime s in
        ([SetTimeout (interval_at s elapsedTime)], st)
  | Thrown error => ([Reject error], st)
  end.

(** The destructuring of [options] (lines 386-392); [now] is the reading
    of [Date.now()] when the call is made. *)
Definition settings (options : ExpectedTimeOptions) (now : Z) (e : Q) : Settings :=
  {| s_expectedCompletionTime := e;
     s_coefficients :=
       default (coefficients options) {| a := 1 / 30000; b := 1 / 100; c := 500 |};
     s_minimumInterval := default (minimumInterval options) 500;
     s_maximumInterval := default (maximumInterval options) 3000;
     s_jobStartTime := default (jobStartTime options) (inject_Z now) |}.

(** An async function that throws returns a rejected promise. *)
Definition thrown (message : string) : Run :=
  {| promise := Rejected (JS.Error message); checks := 0; waits := []; queued := [] |}.

Definition expectedTimeStrategy (options : ExpectedTimeOptions) (now : Z)
    (script : list (CheckResult * Z)) : Run :=
  match expectedCompletionTime options with
  | Some e =>
      if negb (JS.truthy (JS.VNumber e)) then
        thrown "Expected completion time must be provided."
      else loop (expectedTime_poll (settings options now e)) tt script start
  | None => thrown "Expected completion time must be provided."
  end.

End Client.

(** ** Notions of the specification and the scenarios used below *)

Module Spec.
Import Server Client.

(** Every key of a store the server builds is a truthy text. *)
Definition keys_truthy (videos : gmap string Job) : Prop :=
  forall id job, videos !! id = Some job -> JS.truthy (JS.VString id) = true.

(** The default configuration (no variable set) and a first request. *)
Definition default_env : Env :=
  {| env_MIN_DELAY := None; env_MAX_DELAY := None; env_ERROR_RATE := None |}.

Definition demo_history : list Request :=
  [PostCreate (Some "t1"%string) (1 # 2) (1 # 2) 100].

Definition demo_job : Job :=
  {| startTime := 100; delay := JS.VNumber 27500; status := pending |}.

(** The server started with [ERROR_RATE=0] in its environment. *)
Definition zero_rate_env : Env :=
  {| env_MIN_DELAY := None; env_MAX_DELAY := None; env_ERROR_RATE := Some "0"%string |}.

(** The server started with [MIN_DELAY=1000] and [MAX_DELAY=1999]. *)
Definition delay_env : Env :=
  {| env_MIN_DELAY := Some "1000"%string; env_MAX_DELAY := Some "1999"%string;
     env_ERROR_RATE := None |}.

Local Open Scope Q_scope.

(** The recurrence of the specification: the first interval is [initial],
    each later one is [min (previous * 2) stable]. *)
Fixpoint backoff (initial stable : Q) (n : nat) : Q :=
  match n with
  | O => initial
  | S k => Qmin (backoff initial stable k * 2) stable
  end.

Definition pending_answer : CheckResult := Returned (JS.VString "pending").

(** The backoff property as the specification words it: for every initial
    and stable interval the sequence is non-decreasing and never exceeds the stable
    interval. *)
Definition backoff_monotone_bounded_for_all : Prop :=
  forall options script,
    forallb nonterminal script = true ->
    (forall k x y,
       delays (exponentialStrategy options script) !! k = Some x ->
       delays (exponentialStrategy options script) !! S k = Some y ->
       x <= y)
    /\ (forall k x,
          delays (exponentialStrategy options script) !! k = Some x ->
          x <= or_default (stableInterval options) 8000).

(** A falsy option: undefined or the number 0. *)
Definition falsy (option : option Q) : Prop :=
  match option with
  | None => True
  | Some q => q == 0
  end.

Definition demo_options : ExponentialOptions :=
  {| initialInterval := Some 1000; stableInterval := Some 8000 |}.

(** The options of the repository's test of [expectedTimeStrategy], with
    the job started at time 0. *)
Definition test_options : ExpectedTimeOptions :=
  {| expectedCompletionTime := Some 30000;
     coefficients := Some {| a := 1 / 30000; b := 1 / 100; c := 1000 |};
     minimumInterval := Some 500;
     maximumInterval := Some 3000;
     jobStartTime := Some 0 |}.

(** Clamping as the specification means it, for [lo <= hi]. *)
Definition clamp (x lo hi : Q) : Q :=
  if Qlt_le_dec x lo then lo else if Qlt_le_dec hi x then hi else x.

(** The settings of the repository's test. *)
Definition test_settings : Settings := settings test_options 0 30000.

(** The negative-raw property as the specification words it: with
    [minimumInterval <= maximumInterval], every negative [raw] gives
    [minimumInterval]. *)
Definition negative_raw_gives_minimum_for_all : Prop :=
  forall (s : Settings) (elapsedTime : Q),
    s_minimumInterval s <= s_maximumInterval s ->
    quadratic s (timeRemaining s elapsedTime) < 0 ->
    interval_at s elapsedTime == s_minimumInterval s.

(** The deadline property as the specification words it: with
    non-negative [a] and [b], once
    the elapsed time has reached [expectedCompletionTime] the interval is
    [minimumInterval]. *)
Definition past_deadline_gives_minimum_for_all : Prop :=
  forall (s : Settings) (elapsedTime : Q),
    0 <= a (s_coefficients s) -> 0 <= b (s_coefficients s) ->
    s_expectedCompletionTime s <= elapsedTime ->
    interval_at s elapsedTime == s_minimumInterval s.

End Spec.

(** ** The client library: client/client.js, talking to the server *)

Module Library.
Import Server Client.

(** What becomes of a request sent with axios: the server handles it and
    its response arrives; or the request never reaches the server; or the
    server handles it and the response never arrives.  In the last two
    cases axios throws an error without a response: [error.response] is
    undefined and only [error.message] is there. *)
Inductive Wire : Type :=
| Delivered
| Failed (message : string)
| Lost (message : string).

(** The HTTP status of a response of the server. *)
Definition http_status (r : Response) : Z :=
  match r with
  | Json400 _ => 400
  | Json404 _ => 404
  | JsonCreated _ _ | JsonResult _ => 200
  end.

(** [error.message] of the error axios throws for a status outside 2xx. *)
Definition status_message (code : Z) : string :=
  String.append "Request failed with status code " (JS.Z_to_string code).

(** [`${error.response?.data?.error || error.message}`] *)
Definition error_detail (response_error : JS.value) (message : string) : string :=
  JS.ToString (JS.or response_error (JS.VString message)).

(** [createJob(videoID)]: the response body, or the thrown error. *)
Definition createJob (env : Env) (videos : gmap string Job) (wire : Wire)
    (videoID : option string) (random1 random2 : Q) (now : Z)
  : gmap string Job * (Response + JS.exn) :=
  match wire with
  | Failed message =>
      (videos,
       inr (JS.Error (String.append "Error creating job: "
                        (error_detail JS.VUndefined message))))
  | Lost message =>
      (fst (create env videos videoID random1 random2 now),
       inr (JS.Error (String.append "Error creating job: "
                        (error_detail JS.VUndefined message))))
  | Delivered =>
      let '(videos', response) := create env videos videoID random1 random2 now in
      match response with
      | Json400 e | Json404 e =>
          (videos',
           inr (JS.Error
                  (String.append "Error creating job: "
                     (error_detail (JS.VString e)
                        (status_message (http_status response))))))
      | JsonCreated _ _ | JsonResult _ => (videos', inl response)
      end
  end.

(** [checkStatus(videoID)]: [response.data.result], or the thrown error. *)
Definition checkStatus (videos : gmap string Job) (wire : Wire)
    (videoID : option string) (now : Z) : gmap string Job * CheckResult :=
  match wire with
  | Failed message =>
      (videos,
       Thrown (JS.Error (String.append "Error checking status: "
                           (error_detail JS.VUndefined message))))
  | Lost message =>
      (fst (getStatus videos videoID now),
       Thrown (JS.Error (String.append "Error checking status: "
                           (error_detail JS.VUndefined message))))
  | Delivered =>
      let '(videos', response) := getStatus videos videoID now in
      match response with
      | Json400 e | Json404 e =>
          (videos',
           Thrown (JS.Error
                     (String.append "Error checking status: "
                        (error_detail (JS.VString e)
                           (status_message (http_status response))))))
      | JsonResult result => (videos', Returned result)
      | JsonCreated _ _ => (videos', Returned JS.VUndefined)
      end
  end.

(** The answers [client.checkStatus(videoID)] gives to successive polls
    of one job when no other request reaches the server in between: each
    poll has its fate on the wire and the server's clock reading (not used
    when the request never reaches the server). *)
Fixpoint poll_answers (videos : gmap string Job) (videoID : option string)
    (requests : list (Wire * Z)) : list CheckResult :=
  match requests with
  | [] => []
  | (wire, now) :: rest =>
      let '(videos', answer) := checkStatus videos wire videoID now in
      answer :: poll_answers videos' videoID rest
  end.

(** [exponentialStrategy(client, videoID, options)] with the library's
    client. *)
Definition exponentialPolling (options : ExponentialOptions)
    (videos : gmap string Job) (videoID : option string)
    (requests : list (Wire * Z)) : Run :=
  exponentialStrategy options (poll_answers videos videoID requests).

(** [expectedTimeStrategy(client, videoID, options)] with the library's
    client; [readings] are the readings of [Date.now()] on the client, one
    per poll. *)
Definition expectedTimePolling (options : ExpectedTimeOptions) (now : Z)
    (videos : gmap string Job) (videoID : option string)
    (requests : list (Wire * Z)) (readings : list Z) : Run :=
  expectedTimeStrategy options now
    (combine (poll_answers videos videoID requests) readings).

End Library.

(** ** Further notions: requests, reachable stores *)

Module Derived.
Import Server Client.
Local Open Scope Z_scope.

(** The id a request is about. *)
Definition request_id (r : Request) : option string :=
  match r with
  | PostCreate videoID _ _ _ => videoID
  | GetStatus videoID _ => videoID
  end.

(** The keys of every store the server builds from requests whose id is a
    text: non-empty, and not names of [Object.prototype]. *)
Definition plain_store (videos : gmap string Job) : Prop :=
  forall id job,
    videos !! id = Some job ->
    JS.truthy (JS.VString id) = true
    /\ existsb (String.eqb id) Object_prototype = false.

(** What the first terminal answer makes of the promise. *)
Definition verdict (r : CheckResult) : Promise :=
  match r with
  | Returned status =>
      if strict_eq status "completed" then Fulfilled (JS.VString "completed")
      else if strict_eq status "error" then
        Rejected (JS.Error "Error in video translation.")
      else Unsettled
  | Thrown e => Rejected e
  end.


(** The server started with [ERROR_RATE=1]. *)
Definition sure_error_env : Env :=
  {| env_MIN_DELAY := None; env_MAX_DELAY := None; env_ERROR_RATE := Some "1"%string |}.

(** The server started with [MIN_DELAY=soon], which is not a number. *)
Definition garbled_env : Env :=
  {| env_MIN_DELAY := Some "soon"%string; env_MAX_DELAY := None;
     env_ERROR_RATE := None |}.

End Derived.

(** * Properties of the server *)

Module ServerFacts.
Import Server Spec.

Lemma get_own (videos : gmap string Job) id job :
  videos !! id = Some job -> get videos id = Own job.
Proof. intros H. unfold get. now rewrite H. Qed.

Lemma get_own_inv (videos : gmap string Job) id job :
  get videos id = Own job -> videos !! id = Some job.
Proof.
  unfold get. destruct (videos !! id) as [j|]; [congruence|].
  destruct (existsb _ _); discriminate.
Qed.

Lemma get_absent (videos : gmap string Job) id :
  get videos id = Absent -> videos !! id = None.
Proof. unfold get. destruct (videos !! id); [discriminate | reflexivity]. Qed.

Lemma keys_truthy_empty : keys_truthy ∅.
Proof. intros id job H. rewrite lookup_empty in H. discriminate. Qed.

Lemma keys_truthy_handle env videos r :
  keys_truthy videos -> keys_truthy (fst (handle env videos r)).
Proof.
  intros Hk.
  destruct r as [[id|] r1 r2 now | [id|] now]; cbn [handle create getStatus fst];
    try exact Hk.
  - destruct (JS.truthy (JS.VString id)) eqn:Ht; cbn [negb fst]; [|exact Hk].
    destruct (get videos id) eqn:Hg; cbn [fst]; try exact Hk.
    intros k j. rewrite lookup_insert. case_decide; [|apply Hk].
    subst k. now intros _.
  - destruct (JS.truthy (JS.VString id)) eqn:Ht; cbn [negb fst]; [|exact Hk].
    destruct (get videos id) eqn:Hg; cbn [fst]; try exact Hk.
    destruct (due job now); cbn [fst]; [|exact Hk].
    intros k j. rewrite lookup_insert. case_decide; [|apply Hk].
    subst k. now intros _.
Qed.

Lemma keys_truthy_serve env videos rs :
  keys_truthy videos -> keys_truthy (serve env videos rs).
Proof.
  revert videos. induction rs as [|r rs IH]; intros videos Hk; [exact Hk|].
  simpl. apply IH. now apply keys_truthy_handle.
Qed.

(** A request never removes an entry and changes nothing of an entry
    except a pending status, which may become completed. *)
Lemma handle_entry env videos r id job :
  videos !! id = Some job ->
  exists job', fst (handle env videos r) !! id = Some job'
    /\ startTime job' = startTime job /\ delay job' = delay job
    /\ (status job' = status job \/ (status job = pending /\ status job' = completed)).
Proof.
  intros Hj.
  assert (Hsame : exists job', videos !! id = Some job'
    /\ startTime job' = startTime job /\ delay job' = delay job
    /\ (status job' = status job \/ (status job = pending /\ status job' = completed)))
    by (exists job; auto).
  destruct r as [[k|] r1 r2 now | [k|] now]; cbn [handle create getStatus fst];
    try exact Hsame.
  - destruct (JS.truthy (JS.VString k)); cbn [negb fst]; [|exact Hsame].
    destruct (get videos k) eqn:Hg; cbn [fst]; try exact Hsame.
    apply get_absent in Hg.
    rewrite lookup_insert_ne; [exact Hsame | congruence].
  - destruct (JS.truthy (JS.VString k)); cbn [negb fst]; [|exact Hsame].
    destruct (get videos k) as [video| |] eqn:Hg; cbn [fst]; try exact Hsame.
    destruct (due video now) eqn:Hd; cbn [fst]; [|exact Hsame].
    apply get_own_inv in Hg.
    rewrite lookup_insert. case_decide; [|exact Hsame].
    subst k. rewrite Hj in Hg. inversion Hg; subst video.
    eexists; split; [reflexivity|]. simpl. repeat split.
    right. split; [|reflexivity].
    unfold due in Hd. apply andb_true_iff in Hd as [_ Hd].
    destruct (status job); [reflexivity | discriminate | discriminate].
Qed.

Lemma job_eta (j1 j2 : Job) :
  startTime j1 = startTime j2 -> delay j1 = delay j2 -> status j1 = status j2 ->
  j1 = j2.
Proof. destruct j1, j2; simpl; intros; subst; reflexivity. Qed.

(** An entry that is not pending is never touched again. *)
Lemma serve_settled env videos rs id job :
  videos !! id = Some job -> status job <> pending ->
  serve env videos rs !! id = Some job.
Proof.
  revert videos. induction rs as [|r rs IH]; intros videos Hj Hs; [exact Hj|].
  simpl. apply IH; [|exact Hs].
  destruct (handle_entry env videos r id job Hj) as (j' & Hj' & Ht & Hd & Hst).
  rewrite Hj'. f_equal. apply job_eta; auto.
  destruct Hst as [H|[H _]]; [exact H | contradiction].
Qed.

(** What GET /status answers for an own entry under a truthy key. *)
Lemma getStatus_own videos id job now :
  videos !! id = Some job -> JS.truthy (JS.VString id) = true ->
  getStatus videos (Some id) now =
    if due job now then
      (<[id := {| startTime := startTime job; delay := delay job; status := completed |}]> videos,
       JsonResult (JS.VString "completed"))
    else (videos, JsonResult (JS.VString (status_name (status job)))).
Proof.
  intros Hj Ht. unfold getStatus. rewrite Ht. cbn [negb].
  rewrite (get_own _ _ _ Hj). reflexivity.
Qed.

Lemma status_name_inj s1 s2 : status_name s1 = status_name s2 -> s1 = s2.
Proof. destruct s1, s2; simpl; intros H; try reflexivity; discriminate. Qed.

(** With numeric constants line 68 stays within the two bounds. *)
Lemma random_delay_numbers (lo hi : Z) (random : Q) :
  lo <= hi -> (0 <= random)%Q -> (random < 1)%Q ->
  exists d : Z,
    random_delay (JS.VNumber (inject_Z lo)) (JS.VNumber (inject_Z hi)) random
    = JS.VNumber (inject_Z d)
    /\ lo <= d <= hi.
Proof.
  intros Hle H0 H1.
  eexists. split; [reflexivity|].
  set (x := (random * (inject_Z hi - inject_Z lo + 1) + inject_Z lo)%Q).
  assert (Hhl : (inject_Z lo <= inject_Z hi)%Q) by (rewrite <- Zle_Qle; exact Hle).
  assert (Hx0 : (inject_Z lo <= x)%Q) by (unfold x; nra).
  assert (Hx1 : (x < inject_Z (hi + 1))%Q).
  { rewrite inject_Z_plus. change (inject_Z 1) with 1%Q. unfold x. nra. }
  split.
  - rewrite <- (Qfloor_Z lo). apply Qfloor_resp_le. exact Hx0.
  - assert (Hf : (inject_Z (Qfloor x) < inject_Z (hi + 1))%Q).
    { eapply Qle_lt_trans; [apply Qfloor_le | exact Hx1]. }
    rewrite <- Zlt_Qlt in Hf. lia.
Qed.

(** With a positive draw an error rate of 0, given as a number or as a
    text, yields a pending job. *)
Lemma random_status_zero_rate (rate : JS.value) (random : Q) :
  JS.ToNumber rate = Some 0%Q -> (0 < random)%Q ->
  random_status rate random = pending.
Proof.
  intros Hr Hpos. unfold random_status, JS.gt.
  cbn [JS.ToNumber]. destruct rate as [|q| |t]; rewrite Hr;
    (destruct (Qle_bool random 0) eqn:Hle; [|reflexivity];
     apply Qle_bool_iff in Hle; lra).
Qed.

Lemma gt_number r v :
  JS.gt (JS.VNumber r) v
  = match JS.ToNumber v with
    | Some y => negb (Qle_bool r y)
    | None => false
    end.
Proof. destruct v; reflexivity. Qed.

Lemma ge_number r v :
  JS.ge (JS.VNumber r) v
  = match JS.ToNumber v with
    | Some y => Qle_bool y r
    | None => false
    end.
Proof. destruct v; reflexivity. Qed.

(** C6 (status lifecycle).  In every store the server reaches: an entry
    whose status is 'error' is never changed and GET /status keeps answering
    'error'; for a 'pending' entry whose delay is the number [q], GET /status
    answers 'completed' exactly when [q <= now - startTime] and 'pending'
    otherwise, and for one whose delay is NaN it answers 'pending'; and once
    GET /status has answered 'completed' for an id, it answers 'completed'
    at every later time, whatever requests come in between. *)
Theorem status_lifecycle env history id job :
  serve env ∅ history !! id = Some job ->
  (status job = error ->
     forall rs now,
       serve env (serve env ∅ history) rs !! id = Some job
       /\ snd (getStatus (serve env (serve env ∅ history) rs) (Some id) now)
          = JsonResult (JS.VString "error"))
  /\ (status job = pending ->
      forall now,
        (forall q : Q,
           delay job = JS.VNumber q ->
           (snd (getStatus (serve env ∅ history) (Some id) now)
            = JsonResult (JS.VString "completed")
            <-> (q <= inject_Z (now - startTime job))%Q)
           /\ ((inject_Z (now - startTime job) < q)%Q ->
               snd (getStatus (serve env ∅ history) (Some id) now)
               = JsonResult (JS.VString "pending")))
        /\ (JS.ToNumber (delay job) = None ->
            snd (getStatus (serve env ∅ history) (Some id) now)
            = JsonResult (JS.VString "pending")))
  /\ (forall now1,
        snd (getStatus (serve env ∅ history) (Some id) now1)
        = JsonResult (JS.VString "completed") ->
        forall rs now2,
          snd (getStatus
                 (serve env (fst (getStatus (serve env ∅ history) (Some id) now1)) rs)
                 (Some id) now2)
          = JsonResult (JS.VString "completed")).
Proof.
  intros Hj.
  assert (Ht : JS.truthy (JS.VString id) = true).
  { eapply keys_truthy_serve; [apply keys_truthy_empty | exact Hj]. }
  split; [|split].
  - intros Herr rs now.
    assert (Hkeep : serve env (serve env ∅ history) rs !! id = Some job).
    { apply serve_settled; [exact Hj | congruence]. }
    split; [exact Hkeep|].
    rewrite (getStatus_own _ _ _ now Hkeep Ht).
    unfold due. rewrite Herr, andb_false_r. reflexivity.
  - intros Hp now. rewrite (getStatus_own _ _ _ now Hj Ht).
    unfold due. rewrite Hp, andb_true_r, ge_number. split.
    + intros q Hq. rewrite Hq. cbn [JS.ToNumber].
      destruct (Qle_bool q (inject_Z (now - startTime job))) eqn:Hle;
        cbn [snd status_name].
      * apply Qle_bool_iff in Hle. split; [tauto|]. intros Hlt. lra.
      * assert (Hnle : ~ (q <= inject_Z (now - startTime job))%Q).
        { intros H. apply Qle_bool_iff in H. congruence. }
        split; [split; [discriminate | contradiction] | reflexivity].
    + intros Hnan. now rewrite Hnan.
  - intros now1 Hc rs now2.
    rewrite (getStatus_own _ _ _ now1 Hj Ht) in Hc |- *.
    destruct (due job now1) eqn:Hd; cbn [fst snd] in *.
    + set (done := {| startTime := startTime job; delay := delay job;
                      status := completed |}).
      assert (Hkeep : serve env (<[id := done]> (serve env ∅ history)) rs !! id
                      = Some done).
      { apply serve_settled; [apply lookup_insert_eq | discriminate]. }
      rewrite (getStatus_own _ _ _ now2 Hkeep Ht).
      unfold due. cbn [status]. rewrite andb_false_r. reflexivity.
    + assert (Hs : status job = completed).
      { apply status_name_inj. simpl. congruence. }
      assert (Hkeep : serve env (serve env ∅ history) rs !! id = Some job).
      { apply serve_settled; [exact Hj | congruence]. }
      rewrite (getStatus_own _ _ _ now2 Hkeep Ht).
      unfold due. rewrite Hs, andb_false_r. reflexivity.
Qed.

(** C8 (duplicate id).  In every store the server reaches, POST /create
    with an id that is present answers 400 with the already-exists message
    and returns the store as it was: the entry under the id, and every other
    entry, is what it was before. *)
Theorem create_duplicate_rejected env history id job random1 random2 now :
  serve env ∅ history !! id = Some job ->
  create env (serve env ∅ history) (Some id) random1 random2 now
  = (serve env ∅ history,
     Json400 (String.append "VideoID '"
                (String.append id "' already exists. Please choose a different ID.")))
  /\ fst (create env (serve env ∅ history) (Some id) random1 random2 now) !! id
     = Some job.
Proof.
  intros Hj.
  assert (Ht : JS.truthy (JS.VString id) = true).
  { eapply keys_truthy_serve; [apply keys_truthy_empty | exact Hj]. }
  assert (Hc : create env (serve env ∅ history) (Some id) random1 random2 now
               = (serve env ∅ history,
                  Json400 (String.append "VideoID '"
                    (String.append id
                       "' already exists. Please choose a different ID.")))).
  { unfold create. rewrite Ht. cbn [negb]. rewrite (get_own _ _ _ Hj). reflexivity. }
  split; [exact Hc|]. rewrite Hc. exact Hj.
Qed.

Lemma status_lifecycle_witness :
  serve default_env ∅ demo_history !! "t1"%string = Some demo_job
  /\ (forall now,
        snd (getStatus (serve default_env ∅ demo_history) (Some "t1"%string) now)
        = JsonResult (JS.VString "completed")
        <-> (27500 <= inject_Z (now - 100))%Q).
Proof.
  assert (H : serve default_env ∅ demo_history !! "t1"%string = Some demo_job)
    by (vm_compute; reflexivity).
  split; [exact H|].
  destruct (status_lifecycle default_env demo_history "t1"%string demo_job H)
    as (_ & Hpending & _).
  intros now.
  exact (proj1 (proj1 (Hpending eq_refl now) 27500%Q eq_refl)).
Defined.

Lemma create_duplicate_rejected_witness :
  serve default_env ∅ demo_history !! "t1"%string = Some demo_job
  /\ create default_env (serve default_env ∅ demo_history) (Some "t1"%string)
       (1 # 4) 0 250
     = (serve default_env ∅ demo_history,
        Json400 "VideoID 't1' already exists. Please choose a different ID.").
Proof.
  assert (H : serve default_env ∅ demo_history !! "t1"%string = Some demo_job)
    by (vm_compute; reflexivity).
  split; [exact H|].
  exact (proj1 (create_duplicate_rejected default_env demo_history "t1"%string
                  demo_job (1 # 4) 0 250 H)).
Defined.

(** C7 (error rate 0), at the draw 0.  With [ERROR_RATE=0] (the text "0"
    of the environment, or the number 0) and [Math.random()] returning 0 on
    line 69, [0 > 0] is false and the job is created with status 'error';
    GET /status then answers 'error' at every later time and never
    'completed'. *)
Theorem zero_error_rate_zero_draw_is_error :
  ERROR_RATE zero_rate_env = JS.VString "0"
  /\ random_status (ERROR_RATE zero_rate_env) 0 = error
  /\ random_status (JS.VNumber 0) 0 = error
  /\ forall random1 now,
       fst (create zero_rate_env ∅ (Some "t1"%string) random1 0 now) !! "t1"%string
       = Some {| startTime := now;
                 delay := random_delay (MIN_DELAY zero_rate_env)
                            (MAX_DELAY zero_rate_env) random1;
                 status := error |}
       /\ forall rs now',
            snd (getStatus
                   (serve zero_rate_env
                      (fst (create zero_rate_env ∅ (Some "t1"%string) random1 0 now)) rs)
                   (Some "t1"%string) now')
            = JsonResult (JS.VString "error").
Proof.
  do 3 (split; [reflexivity|]). intros random1 now.
  assert (Hc : fst (create zero_rate_env ∅ (Some "t1"%string) random1 0 now)
               !! "t1"%string
               = Some {| startTime := now;
                         delay := random_delay (MIN_DELAY zero_rate_env)
                                    (MAX_DELAY zero_rate_env) random1;
                         status := error |}).
  { unfold create. cbn [JS.truthy String.eqb Ascii.eqb negb].
    change (get ∅ "t1"%string) with Absent. cbn [fst]. apply lookup_insert_eq. }
  split; [exact Hc|]. intros rs now'.
  set (job := {| startTime := now; delay := _; status := error |}) in Hc.
  assert (Hkeep : serve zero_rate_env
                    (fst (create zero_rate_env ∅ (Some "t1"%string) random1 0 now)) rs
                  !! "t1"%string = Some job).
  { apply serve_settled; [exact Hc | discriminate]. }
  rewrite (getStatus_own _ _ _ now' Hkeep eq_refl).
  unfold due. cbn [status]. rewrite andb_false_r. reflexivity.
Qed.

(** C9 (delay range), with the bounds taken from the environment.
    [MIN_DELAY] is then the text "1000".  With [Math.random()] returning 0.5
    line 68 computes [0.5 * 1000 = 500], appends the text to get "5001000",
    and stores the delay 5001000, which is above [MAX_DELAY]; with 0.0625 it
    computes 62.5, reads "62.51000" and stores 62, which is below
    [MIN_DELAY]. *)
Theorem env_delay_out_of_range :
  MIN_DELAY delay_env = JS.VString "1000"
  /\ MAX_DELAY delay_env = JS.VString "1999"
  /\ random_delay (MIN_DELAY delay_env) (MAX_DELAY delay_env) (1 # 2)
     = JS.VNumber 5001000
  /\ random_delay (MIN_DELAY delay_env) (MAX_DELAY delay_env) (1 # 16)
     = JS.VNumber 62
  /\ forall random2 now,
       fst (create delay_env ∅ (Some "t1"%string) (1 # 2) random2 now) !! "t1"%string
       = Some {| startTime := now; delay := JS.VNumber 5001000;
                 status := random_status (ERROR_RATE delay_env) random2 |}.
Proof.
  split; [reflexivity|]. split; [reflexivity|].
  assert (Hd : random_delay (MIN_DELAY delay_env) (MAX_DELAY delay_env) (1 # 2)
               = JS.VNumber 5001000) by (vm_compute; reflexivity).
  split; [exact Hd|]. split; [vm_compute; reflexivity|]. intros random2 now.
  unfold create. cbn [JS.truthy String.eqb Ascii.eqb negb].
  change (get ∅ "t1"%string) with Absent. cbn [fst].
  rewrite Hd. apply lookup_insert_eq.
Qed.

(** With the default constants the delay is within them. *)
Lemma default_delay_in_range (random : Q) :
  (0 <= random)%Q -> (random < 1)%Q ->
  exists d : Z,
    random_delay (MIN_DELAY default_env) (MAX_DELAY default_env) random
    = JS.VNumber (inject_Z d)
    /\ 5000 <= d <= 50000.
Proof.
  intros H0 H1.
  exact (random_delay_numbers 5000 50000 random ltac:(lia) H0 H1).
Qed.

End ServerFacts.

(** * Properties of the polling loop *)

Module LoopFacts.
Import Client.

Local Open Scope Q_scope.

Section Generic.
Context {State Input : Type}.
Variable poll : State -> Input -> list Effect * State.

Lemma advance_cons st i script :
  advance poll st (i :: script) = advance poll (snd (poll st i)) script.
Proof. reflexivity. Qed.

Lemma loop_idle st script r : queued r = [] -> loop poll st script r = r.
Proof. intros H. destruct script; simpl; [reflexivity|]. now rewrite H. Qed.

Lemma loop_cons st i script r t rest :
  queued r = t :: rest ->
  loop poll st (i :: script) r
  = loop poll (snd (poll st i)) script (after_cycle t (fst (poll st i)) r rest).
Proof. intros H. simpl. rewrite H. now destruct (poll st i). Qed.

Lemma loop_app st pre rest r :
  loop poll st (pre ++ rest) r = loop poll (advance poll st pre) rest (loop poll st pre r).
Proof.
  revert st r. induction pre as [|i pre IH]; intros st r; [reflexivity|].
  destruct (queued r) as [|t ts] eqn:Hq.
  - rewrite (loop_idle st _ r Hq), (loop_idle st _ r Hq).
    symmetry. now apply loop_idle.
  - cbn [app]. rewrite !(loop_cons _ _ _ _ _ _ Hq). apply IH.
Qed.

Variable answer : Input -> CheckResult.
Variable interval : State -> Input -> Q.

(** The shape both [poll] functions have. *)
Hypothesis poll_effects : forall st i,
  fst (poll st i) =
    match answer i with
    | Returned status =>
        if strict_eq status "completed" then [Resolve (JS.VString "completed")]
        else if strict_eq status "error" then
          [Reject (JS.Error "Error in video translation.")]
        else [SetTimeout (interval st i)]
    | Thrown error => [Reject error]
    end.

Lemma poll_nonterminal st i :
  nonterminal (answer i) = true -> fst (poll st i) = [SetTimeout (interval st i)].
Proof.
  intros H. rewrite poll_effects. unfold nonterminal in H.
  destruct (answer i) as [status|e]; [|discriminate].
  apply andb_true_iff in H as [H1 H2].
  apply negb_true_iff in H1, H2. now rewrite H1, H2.
Qed.

(** While the answers are non-terminal the promise stays unsettled,
    every answer is consumed, and exactly one call of [poll] is queued. *)
Lemma loop_pending pre : forall st r t,
  forallb (fun i => nonterminal (answer i)) pre = true ->
  queued r = [t] ->
  promise (loop poll st pre r) = promise r
  /\ checks (loop poll st pre r) = (checks r + length pre)%nat
  /\ delays (loop poll st pre r) = delays r ++ intervals poll interval st pre
  /\ exists t', queued (loop poll st pre r) = [t'].
Proof.
  induction pre as [|i pre IH]; intros st r t Hall Hq.
  - cbn [loop length intervals]. rewrite Nat.add_0_r, app_nil_r. eauto.
  - cbn [forallb] in Hall. apply andb_true_iff in Hall as [Hi Hall].
    rewrite (loop_cons _ _ _ _ _ _ Hq).
    pose proof (poll_nonterminal st i Hi) as He.
    set (r1 := after_cycle t (fst (poll st i)) r []).
    assert (Hq1 : queued r1 = [After (interval st i)])
      by (unfold r1, after_cycle; cbn [queued]; now rewrite He).
    destruct (IH (snd (poll st i)) r1 _ Hall Hq1) as (Hp & Hc & Hd & Ht).
    repeat split.
    + rewrite Hp. unfold r1, after_cycle. cbn [promise]. rewrite He.
      cbn [fold_left settle]. now destruct (promise r).
    + rewrite Hc. unfold r1, after_cycle. cbn [checks length]. lia.
    + rewrite Hd. cbn [intervals]. unfold delays.
      rewrite Hq, Hq1. unfold r1, after_cycle. cbn [waits flat_map task_interval].
      destruct t; cbn [task_interval app];
        rewrite ?app_nil_r, <- ?app_assoc; reflexivity.
    + exact Ht.
Qed.

(** One cycle that settles: nothing is queued, so the rest of the
    script is never consumed. *)
Lemma loop_settling st i tail r t e :
  queued r = [t] -> promise r = Unsettled ->
  fst (poll st i) = [e] -> timers [e] = [] ->
  promise (loop poll st (i :: tail) r) = settle Unsettled e
  /\ checks (loop poll st (i :: tail) r) = S (checks r)
  /\ queued (loop poll st (i :: tail) r) = [].
Proof.
  intros Hq Hp He Ht. rewrite (loop_cons _ _ _ _ _ _ Hq).
  rewrite loop_idle; unfold after_cycle; cbn [queued promise checks];
    rewrite He, ?Hp; auto.
Qed.

(** After non-terminal answers, a cycle whose only effect settles the
    promise ends the loop. *)
Lemma loop_outcome st pre x tail e :
  forallb (fun i => nonterminal (answer i)) pre = true ->
  fst (poll (advance poll st pre) x) = [e] -> timers [e] = [] ->
  promise (loop poll st (pre ++ x :: tail) start) = settle Unsettled e
  /\ checks (loop poll st (pre ++ x :: tail) start) = S (length pre)
  /\ queued (loop poll st (pre ++ x :: tail) start) = [].
Proof.
  intros Hall He Ht. rewrite loop_app.
  destruct (loop_pending pre st start Immediate Hall eq_refl)
    as (Hp & Hc & _ & t' & Hq).
  destruct (loop_settling (advance poll st pre) x tail _ t' e Hq Hp He Ht)
    as (Hp' & Hc' & Hq').
  rewrite Hp', Hc', Hq', Hc. auto.
Qed.

(** After non-terminal answers, one more non-terminal answer leaves the
    promise unsettled and exactly one timer queued. *)
Lemma loop_scheduling st pre x :
  forallb (fun i => nonterminal (answer i)) pre = true ->
  nonterminal (answer x) = true ->
  promise (loop poll st (pre ++ [x]) start) = Unsettled
  /\ checks (loop poll st (pre ++ [x]) start) = S (length pre)
  /\ queued (loop poll st (pre ++ [x]) start)
     = [After (interval (advance poll st pre) x)].
Proof.
  intros Hall Hx. rewrite loop_app.
  destruct (loop_pending pre st start Immediate Hall eq_refl)
    as (Hp & Hc & _ & t' & Hq).
  rewrite (loop_cons _ _ _ _ _ _ Hq). cbn [loop].
  unfold after_cycle. cbn [promise checks queued].
  rewrite (poll_nonterminal _ _ Hx), Hp, Hc. auto.
Qed.
End Generic.

End LoopFacts.

(** * Properties of the two strategies *)

Module StrategyFacts.
Import Client Spec LoopFacts.

Local Open Scope Q_scope.

Lemma nonterminal_spec (status : JS.value) :
  nonterminal (Returned status) = true
  <-> status <> JS.VString "completed" /\ status <> JS.VString "error".
Proof.
  unfold nonterminal, strict_eq. destruct status as [|q| |t]; cbn [negb andb];
    try (split; [intros _; split; discriminate | reflexivity]).
  rewrite andb_true_iff, !negb_true_iff, !String.eqb_neq.
  split; intros [H1 H2]; split; congruence.
Qed.

Lemma exponential_poll_effects stable st (r : CheckResult) :
  fst (exponential_poll stable st r) =
    match r with
    | Returned status =>
        if strict_eq status "completed" then [Resolve (JS.VString "completed")]
        else if strict_eq status "error" then
          [Reject (JS.Error "Error in video translation.")]
        else [SetTimeout st]
    | Thrown error => [Reject error]
    end.
Proof.
  destruct r as [status|e]; [|reflexivity]. unfold exponential_poll.
  destruct (strict_eq status "completed"); [reflexivity|].
  destruct (strict_eq status "error"); reflexivity.
Qed.

Lemma expectedTime_poll_effects s st (i : CheckResult * Z) :
  fst (expectedTime_poll s st i) =
    match fst i with
    | Returned status =>
        if strict_eq status "completed" then [Resolve (JS.VString "completed")]
        else if strict_eq status "error" then
          [Reject (JS.Error "Error in video translation.")]
        else [SetTimeout (interval_at s (inject_Z (snd i) - s_jobStartTime s))]
    | Thrown error => [Reject error]
    end.
Proof.
  destruct i as [[status|e] t]; [|reflexivity]. unfold expectedTime_poll. cbn [fst snd].
  destruct (strict_eq status "completed"); [reflexivity|].
  destruct (strict_eq status "error"); reflexivity.
Qed.

(** ** The backoff sequence *)

Lemma exponential_next stable st r :
  nonterminal r = true ->
  snd (exponential_poll stable st r) = Qmin (st * 2) stable.
Proof.
  intros H. destruct r as [status|e]; [|discriminate].
  unfold nonterminal in H. apply andb_true_iff in H as [H1 H2].
  apply negb_true_iff in H1, H2. unfold exponential_poll. now rewrite H1, H2.
Qed.

Lemma exponential_advance initial stable pre : forall k,
  forallb nonterminal pre = true ->
  advance (exponential_poll stable) (backoff initial stable k) pre
  = backoff initial stable (k + length pre).
Proof.
  induction pre as [|r pre IH]; intros k Hall.
  - cbn. now rewrite Nat.add_0_r.
  - cbn [forallb] in Hall. apply andb_true_iff in Hall as [Hr Hall].
    rewrite advance_cons, (exponential_next _ _ _ Hr). cbn [length].
    change (Qmin (backoff initial stable k * 2) stable)
      with (backoff initial stable (S k)).
    rewrite (IH (S k) Hall). f_equal. lia.
Qed.

Lemma exponential_intervals initial stable pre : forall k,
  forallb nonterminal pre = true ->
  intervals (exponential_poll stable) (fun st _ => st) (backoff initial stable k) pre
  = map (backoff initial stable) (seq k (length pre)).
Proof.
  induction pre as [|r pre IH]; intros k Hall; [reflexivity|].
  cbn [forallb] in Hall. apply andb_true_iff in Hall as [Hr Hall].
  cbn [intervals length seq map]. f_equal.
  rewrite (exponential_next _ _ _ Hr).
  change (Qmin (backoff initial stable k * 2) stable)
    with (backoff initial stable (S k)).
  apply IH, Hall.
Qed.

Lemma backoff_bounds initial stable k :
  0 <= initial -> initial <= stable ->
  0 <= backoff initial stable k /\ backoff initial stable k <= stable.
Proof.
  intros H0 Hs. induction k as [|k [IH0 IHs]]; cbn [backoff]; [now split|].
  split; [|apply Q.le_min_r].
  apply Q.min_glb; lra.
Qed.

Lemma backoff_step initial stable k :
  0 <= initial -> initial <= stable ->
  backoff initial stable k <= backoff initial stable (S k).
Proof.
  intros H0 Hs. destruct (backoff_bounds initial stable k H0 Hs) as [Hk0 Hks].
  cbn [backoff]. apply Q.min_glb; lra.
Qed.

(** What [exponentialStrategy] has done after answers that are all
    non-terminal. *)
Lemma exponential_pending options script :
  forallb nonterminal script = true ->
  promise (exponentialStrategy options script) = Unsettled
  /\ checks (exponentialStrategy options script) = length script
  /\ delays (exponentialStrategy options script)
     = map (backoff (or_default (initialInterval options) 1000)
                    (or_default (stableInterval options) 8000))
           (seq 0 (length script))
  /\ exists t, queued (exponentialStrategy options script) = [t].
Proof.
  intros Hall. unfold exponentialStrategy.
  set (i0 := or_default (initialInterval options) 1000).
  set (s := or_default (stableInterval options) 8000).
  destruct (loop_pending (exponential_poll s) (fun r => r) (fun st _ => st)
              (exponential_poll_effects s) script i0 start Immediate Hall eq_refl)
    as (Hp & Hc & Hd & Ht).
  repeat split; [exact Hp | exact Hc | | exact Ht].
  rewrite Hd. cbn [delays start waits queued flat_map task_interval app].
  apply (exponential_intervals i0 s script 0%nat Hall).
Qed.

(** C1 (backoff sequence).  While the status checks are
    non-terminal, the intervals of the timers [exponentialStrategy] sets
    follow the recurrence: the first is the initial interval and each later
    one is the minimum of twice the previous one and the stable interval.
    When the initial interval is between 0 and the stable interval, the
    sequence is non-decreasing and never exceeds the stable interval. *)
Theorem backoff_intervals options script :
  forallb nonterminal script = true ->
  delays (exponentialStrategy options script)
  = map (backoff (or_default (initialInterval options) 1000)
                 (or_default (stableInterval options) 8000))
        (seq 0 (length script))
  /\ (0 <= or_default (initialInterval options) 1000 ->
      or_default (initialInterval options) 1000
      <= or_default (stableInterval options) 8000 ->
      (forall k x y,
         delays (exponentialStrategy options script) !! k = Some x ->
         delays (exponentialStrategy options script) !! S k = Some y ->
         x <= y)
      /\ (forall k x,
            delays (exponentialStrategy options script) !! k = Some x ->
            x <= or_default (stableInterval options) 8000)).
Proof.
  intros Hall.
  destruct (exponential_pending options script Hall) as (_ & _ & Hd & _).
  split; [exact Hd|]. intros H0 Hs. rewrite Hd.
  set (i0 := or_default (initialInterval options) 1000) in *.
  set (s := or_default (stableInterval options) 8000) in *.
  assert (Hlk : forall k x,
             map (backoff i0 s) (seq 0 (length script)) !! k = Some x ->
             x = backoff i0 s k).
  { intros k x H. rewrite list_lookup_fmap in H.
    destruct (seq 0 (length script) !! k) as [j|] eqn:Hj; [|discriminate].
    apply lookup_seq in Hj as [-> _]. cbn in H. congruence. }
  split.
  - intros k x y Hx Hy. apply Hlk in Hx, Hy. subst x y.
    now apply backoff_step.
  - intros k x Hx. apply Hlk in Hx. subst x.
    now apply backoff_bounds.
Qed.

Lemma backoff_intervals_witness :
  delays (exponentialStrategy
            {| initialInterval := Some 1000; stableInterval := Some 8000 |}
            (repeat pending_answer 5))
  = [1000; 2000; 4000; 8000; 8000].
Proof.
  exact (proj1 (backoff_intervals
                  {| initialInterval := Some 1000; stableInterval := Some 8000 |}
                  (repeat pending_answer 5) eq_refl)).
Defined.

(** Without a bound on the initial interval the sequence can decrease:
    with [initialInterval: 10000, stableInterval: 8000] the timers are set
    to 10000 and then 8000. *)
Lemma backoff_initial_above_stable : ~ backoff_monotone_bounded_for_all.
Proof.
  intros H.
  destruct (H {| initialInterval := Some 10000; stableInterval := Some 8000 |}
              [pending_answer; pending_answer] eq_refl) as [Hmono _].
  specialize (Hmono 0%nat 10000 8000 eq_refl eq_refl).
  revert Hmono. apply Qlt_not_le. reflexivity.
Qed.

(** ** The poll cycle *)

Lemma expectedTimeStrategy_loop options now e script :
  expectedCompletionTime options = Some e -> JS.truthy (JS.VNumber e) = true ->
  expectedTimeStrategy options now script
  = loop (expectedTime_poll (settings options now e)) tt script start.
Proof. intros He Ht. unfold expectedTimeStrategy. now rewrite He, Ht. Qed.

(** C4 (terminal and non-terminal statuses).  In either strategy, after
    any number of non-terminal status checks: a check that returns
    'completed' fulfils the promise with "completed" and a check that
    returns 'error' rejects it with the translation error, in both cases
    with nothing left queued; a check that returns any other value leaves
    the promise unsettled and queues exactly one call of [poll], after the
    interval of the strategy. *)
Theorem poll_cycle_outcomes
    (options : ExponentialOptions) (pre tail : list CheckResult)
    (eoptions : ExpectedTimeOptions) (now : Z) (e : Q)
    (epre etail : list (CheckResult * Z)) (currentTime : Z) :
  forallb nonterminal pre = true ->
  expectedCompletionTime eoptions = Some e ->
  JS.truthy (JS.VNumber e) = true ->
  forallb (fun i => nonterminal (fst i)) epre = true ->
  (let done := Returned (JS.VString "completed") in
   let r1 := exponentialStrategy options (pre ++ done :: tail) in
   let r2 := expectedTimeStrategy eoptions now (epre ++ (done, currentTime) :: etail) in
   promise r1 = Fulfilled (JS.VString "completed")
   /\ checks r1 = S (length pre) /\ queued r1 = []
   /\ promise r2 = Fulfilled (JS.VString "completed")
   /\ checks r2 = S (length epre) /\ queued r2 = [])
  /\ (let failed := Returned (JS.VString "error") in
      let r1 := exponentialStrategy options (pre ++ failed :: tail) in
      let r2 :=
        expectedTimeStrategy eoptions now (epre ++ (failed, currentTime) :: etail) in
      promise r1 = Rejected (JS.Error "Error in video translation.")
      /\ checks r1 = S (length pre) /\ queued r1 = []
      /\ promise r2 = Rejected (JS.Error "Error in video translation.")
      /\ checks r2 = S (length epre) /\ queued r2 = [])
  /\ (forall status,
        status <> JS.VString "completed" -> status <> JS.VString "error" ->
        let r1 := exponentialStrategy options (pre ++ [Returned status]) in
        let r2 :=
          expectedTimeStrategy eoptions now (epre ++ [(Returned status, currentTime)]) in
        promise r1 = Unsettled /\ checks r1 = S (length pre)
        /\ queued r1
           = [After (backoff (or_default (initialInterval options) 1000)
                             (or_default (stableInterval options) 8000)
                             (length pre))]
        /\ promise r2 = Unsettled /\ checks r2 = S (length epre)
        /\ queued r2
           = [After (interval_at (settings eoptions now e)
                       (inject_Z currentTime
                        - s_jobStartTime (settings eoptions now e)))]).
Proof.
  intros Hpre He Ht Hepre.
  set (s := or_default (stableInterval options) 8000).
  set (i0 := or_default (initialInterval options) 1000).
  set (cfg := settings eoptions now e).
  pose proof (loop_outcome (exponential_poll s) (fun r => r) (fun st _ => st)
                (exponential_poll_effects s) i0 pre) as Hexp.
  pose proof (loop_outcome (expectedTime_poll cfg) fst
                (fun _ i => interval_at cfg (inject_Z (snd i) - s_jobStartTime cfg))
                (expectedTime_poll_effects cfg) tt epre) as Hest.
  split; [|split].
  - cbv zeta. rewrite (expectedTimeStrategy_loop _ _ _ _ He Ht).
    destruct (Hexp (Returned (JS.VString "completed")) tail _ Hpre eq_refl eq_refl)
      as (H1 & H2 & H3).
    destruct (Hest (Returned (JS.VString "completed"), currentTime) etail _
                Hepre eq_refl eq_refl) as (H4 & H5 & H6).
    unfold exponentialStrategy. fold s i0. fold cfg. auto 10.
  - cbv zeta. rewrite (expectedTimeStrategy_loop _ _ _ _ He Ht).
    destruct (Hexp (Returned (JS.VString "error")) tail _ Hpre eq_refl eq_refl)
      as (H1 & H2 & H3).
    destruct (Hest (Returned (JS.VString "error"), currentTime) etail _
                Hepre eq_refl eq_refl) as (H4 & H5 & H6).
    unfold exponentialStrategy. fold s i0. fold cfg. auto 10.
  - intros status Hc Herr. cbv zeta.
    assert (Hn : nonterminal (Returned status) = true)
      by (apply nonterminal_spec; auto).
    rewrite (expectedTimeStrategy_loop _ _ _ _ He Ht).
    destruct (loop_scheduling (exponential_poll s) (fun r => r) (fun st _ => st)
                (exponential_poll_effects s) i0 pre (Returned status) Hpre Hn)
      as (H1 & H2 & H3).
    destruct (loop_scheduling (expectedTime_poll cfg) fst
                (fun _ i => interval_at cfg (inject_Z (snd i) - s_jobStartTime cfg))
                (expectedTime_poll_effects cfg) tt epre
                (Returned status, currentTime) Hepre Hn) as (H4 & H5 & H6).
    pose proof (exponential_advance i0 s pre 0%nat Hpre) as Ha.
    cbn [backoff Nat.add] in Ha. cbv beta in H3. rewrite Ha in H3.
    unfold exponentialStrategy. fold s i0. fold cfg. auto 10.
Qed.

(** C5 (failure of the status check).  In either strategy, after any
    number of non-terminal status checks, a status check that throws rejects
    the promise with the thrown value itself; no timer is queued and no
    further status check is made, whatever the client would have answered
    next. *)
Theorem check_failure_ends_loop
    (options : ExponentialOptions) (pre tail : list CheckResult)
    (eoptions : ExpectedTimeOptions) (now : Z) (e : Q)
    (epre etail : list (CheckResult * Z)) (currentTime : Z) (error : JS.exn) :
  forallb nonterminal pre = true ->
  expectedCompletionTime eoptions = Some e ->
  JS.truthy (JS.VNumber e) = true ->
  forallb (fun i => nonterminal (fst i)) epre = true ->
  let r1 := exponentialStrategy options (pre ++ Thrown error :: tail) in
  let r2 :=
    expectedTimeStrategy eoptions now (epre ++ (Thrown error, currentTime) :: etail) in
  promise r1 = Rejected error /\ checks r1 = S (length pre) /\ queued r1 = []
  /\ promise r2 = Rejected error /\ checks r2 = S (length epre) /\ queued r2 = [].
Proof.
  intros Hpre He Ht Hepre. cbv zeta.
  rewrite (expectedTimeStrategy_loop _ _ _ _ He Ht).
  set (s := or_default (stableInterval options) 8000).
  set (i0 := or_default (initialInterval options) 1000).
  set (cfg := settings eoptions now e).
  destruct (loop_outcome (exponential_poll s) (fun r => r) (fun st _ => st)
              (exponential_poll_effects s) i0 pre (Thrown error) tail _
              Hpre eq_refl eq_refl) as (H1 & H2 & H3).
  destruct (loop_outcome (expectedTime_poll cfg) fst
              (fun _ i => interval_at cfg (inject_Z (snd i) - s_jobStartTime cfg))
              (expectedTime_poll_effects cfg) tt epre
              (Thrown error, currentTime) etail _ Hepre eq_refl eq_refl)
    as (H4 & H5 & H6).
  unfold exponentialStrategy. fold s i0. auto 10.
Qed.

(** C10 (falsy expected completion time).  When [expectedCompletionTime]
    is undefined or 0, [expectedTimeStrategy] rejects with the
    configuration error and makes no status check, whatever the client
    would have answered. *)
Theorem falsy_expected_time_rejects options now script :
  falsy (expectedCompletionTime options) ->
  promise (expectedTimeStrategy options now script)
  = Rejected (JS.Error "Expected completion time must be provided.")
  /\ checks (expectedTimeStrategy options now script) = 0%nat
  /\ queued (expectedTimeStrategy options now script) = [].
Proof.
  unfold falsy, expectedTimeStrategy.
  destruct (expectedCompletionTime options) as [q|]; intros H; [|now cbn].
  cbn [JS.truthy]. apply Qeq_bool_iff in H. rewrite H. now cbn.
Qed.

Lemma poll_cycle_outcomes_witness :
  promise (exponentialStrategy demo_options
             ([pending_answer; pending_answer]
              ++ Returned (JS.VString "completed") :: [pending_answer]))
  = Fulfilled (JS.VString "completed")
  /\ queued (expectedTimeStrategy test_options 0
               ([(pending_answer, 1000%Z)] ++ [(Returned JS.VUndefined, 29000%Z)]))
     = [After (interval_at (settings test_options 0 30000) (inject_Z 29000 - 0))].
Proof.
  pose proof (poll_cycle_outcomes demo_options [pending_answer; pending_answer]
                [pending_answer] test_options 0 30000 [(pending_answer, 1000%Z)] []
                29000 eq_refl eq_refl eq_refl eq_refl) as (Hdone & _ & Hother).
  split.
  - exact (proj1 Hdone).
  - specialize (Hother JS.VUndefined ltac:(discriminate) ltac:(discriminate)).
    exact (proj2 (proj2 (proj2 (proj2 (proj2 Hother))))).
Defined.

Lemma check_failure_ends_loop_witness :
  promise (exponentialStrategy demo_options
             ([pending_answer] ++ Thrown (JS.Error "Network Error") :: [pending_answer]))
  = Rejected (JS.Error "Network Error")
  /\ checks (exponentialStrategy demo_options
               ([pending_answer] ++ Thrown (JS.Error "Network Error") :: [pending_answer]))
     = 2%nat.
Proof.
  pose proof (check_failure_ends_loop demo_options [pending_answer] [pending_answer]
                test_options 0 30000 [] [] 0 (JS.Error "Network Error")
                eq_refl eq_refl eq_refl eq_refl) as (Hp & Hc & _).
  split; [exact Hp | exact Hc].
Defined.

Lemma falsy_expected_time_rejects_witness :
  checks (expectedTimeStrategy
            {| expectedCompletionTime := Some 0; coefficients := None;
               minimumInterval := None; maximumInterval := None;
               jobStartTime := None |}
            0 [(Returned (JS.VString "completed"), 0%Z)])
  = 0%nat.
Proof.
  refine (proj1 (proj2 (falsy_expected_time_rejects _ 0 _ _))).
  reflexivity.
Defined.

(** ** The predictive interval *)

Lemma clamp_max_min x lo hi : lo <= hi -> Qmax lo (Qmin x hi) == clamp x lo hi.
Proof.
  intros H. unfold clamp.
  destruct (Qlt_le_dec x lo) as [Hx|Hx].
  - apply Q.max_l. eapply Qle_trans; [apply Q.le_min_l | lra].
  - destruct (Qlt_le_dec hi x) as [Hy|Hy].
    + rewrite (Q.min_r x hi) by lra. apply Q.max_r. exact H.
    + rewrite (Q.min_l x hi) by lra. apply Q.max_r. exact Hx.
Qed.

Lemma timeRemaining_nonneg s elapsedTime : 0 <= timeRemaining s elapsedTime.
Proof. apply Q.le_max_l. Qed.

Lemma timeRemaining_antitone s e1 e2 :
  e1 <= e2 -> timeRemaining s e2 <= timeRemaining s e1.
Proof. intros H. apply Q.max_le_compat_l. lra. Qed.

Lemma timeRemaining_past s elapsedTime :
  s_expectedCompletionTime s <= elapsedTime -> timeRemaining s elapsedTime == 0.
Proof. intros H. apply Q.max_l. lra. Qed.

Lemma quadratic_monotone s t1 t2 :
  0 <= a (s_coefficients s) -> 0 <= b (s_coefficients s) ->
  0 <= t2 -> t2 <= t1 -> quadratic s t2 <= quadratic s t1.
Proof.
  intros Ha Hb H0 H. unfold quadratic. simpl.
  assert (H1 : 0 <= a (s_coefficients s) * ((t1 - t2) * (t1 + t2))).
  { apply Qmult_le_0_compat; [exact Ha|]. apply Qmult_le_0_compat; lra. }
  assert (H2 : 0 <= b (s_coefficients s) * (t1 - t2)).
  { apply Qmult_le_0_compat; [exact Hb | lra]. }
  lra.
Qed.

Lemma quadratic_at_0 s t : t == 0 -> quadratic s t == c (s_coefficients s).
Proof. intros H. unfold quadratic. rewrite H. simpl. ring. Qed.

(** C2 (clamped quadratic interval).  For every elapsed time and
    all coefficients the interval is
    [max (minimumInterval, min (raw, maximumInterval))] with
    [raw = a*t^2 + b*t + c] and [t = max (0, expectedCompletionTime - elapsed)],
    and this is the interval of the timer set after a non-terminal status.
    When [minimumInterval <= maximumInterval] it is the clamping of [raw]
    and lies between the two bounds.  A [raw] that is at most
    [minimumInterval], so a negative [raw] when [minimumInterval] is not
    negative, gives [minimumInterval]. *)
Theorem predictive_interval_clamped (s : Settings) (elapsedTime : Q) :
  let t := Qmax 0 (s_expectedCompletionTime s - elapsedTime) in
  let raw :=
    a (s_coefficients s) * t ^ 2 + b (s_coefficients s) * t + c (s_coefficients s) in
  interval_at s elapsedTime
  = Qmax (s_minimumInterval s) (Qmin raw (s_maximumInterval s))
  /\ (forall status currentTime,
        status <> JS.VString "completed" -> status <> JS.VString "error" ->
        elapsedTime = inject_Z currentTime - s_jobStartTime s ->
        fst (expectedTime_poll s tt (Returned status, currentTime))
        = [SetTimeout (interval_at s elapsedTime)])
  /\ (s_minimumInterval s <= s_maximumInterval s ->
      interval_at s elapsedTime
      == clamp raw (s_minimumInterval s) (s_maximumInterval s)
      /\ s_minimumInterval s <= interval_at s elapsedTime <= s_maximumInterval s)
  /\ (raw <= s_minimumInterval s -> interval_at s elapsedTime == s_minimumInterval s)
  /\ (raw < 0 -> 0 <= s_minimumInterval s ->
      interval_at s elapsedTime == s_minimumInterval s).
Proof.
  cbv zeta. change (interval_at s elapsedTime)
    with (Qmax (s_minimumInterval s)
            (Qmin (quadratic s (timeRemaining s elapsedTime)) (s_maximumInterval s))).
  change (a (s_coefficients s) * Qmax 0 (s_expectedCompletionTime s - elapsedTime) ^ 2
          + b (s_coefficients s) * Qmax 0 (s_expectedCompletionTime s - elapsedTime)
          + c (s_coefficients s))
    with (quadratic s (timeRemaining s elapsedTime)).
  set (raw := quadratic s (timeRemaining s elapsedTime)).
  assert (Hlow : raw <= s_minimumInterval s ->
                 Qmax (s_minimumInterval s) (Qmin raw (s_maximumInterval s))
                 == s_minimumInterval s).
  { intros H. apply Q.max_l. eapply Qle_trans; [apply Q.le_min_l | exact H]. }
  split; [reflexivity|]. split; [|split; [|split]].
  - intros status currentTime Hc He ->.
    rewrite expectedTime_poll_effects. cbn [fst snd].
    assert (Hn : nonterminal (Returned status) = true)
      by (apply nonterminal_spec; auto).
    unfold nonterminal in Hn. apply andb_true_iff in Hn as [H1 H2].
    apply negb_true_iff in H1, H2. now rewrite H1, H2.
  - intros H. split; [now apply clamp_max_min|]. split.
    + apply Q.le_max_l.
    + apply Q.max_lub; [exact H | apply Q.le_min_r].
  - exact Hlow.
  - intros Hneg Hmin. apply Hlow. lra.
Qed.

Lemma predictive_interval_clamped_witness :
  500 <= interval_at test_settings 29000 <= 3000.
Proof.
  refine (proj2 (proj1 (proj2 (proj2 (predictive_interval_clamped test_settings 29000))) _)).
  vm_compute. discriminate.
Defined.

(** A negative minimum: with [minimumInterval: -1000] and [c: -5] ([a]
    and [b] 0) the raw value -5 lies within the bounds and is the
    interval. *)
Lemma negative_raw_above_minimum : ~ negative_raw_gives_minimum_for_all.
Proof.
  intros H.
  specialize (H {| s_expectedCompletionTime := 30000;
                   s_coefficients := {| a := 0; b := 0; c := -5 |};
                   s_minimumInterval := -1000;
                   s_maximumInterval := 3000;
                   s_jobStartTime := 0 |} 0).
  assert (Hle : -1000 <= 3000) by (vm_compute; discriminate).
  assert (Hraw : quadratic {| s_expectedCompletionTime := 30000;
                              s_coefficients := {| a := 0; b := 0; c := -5 |};
                              s_minimumInterval := -1000;
                              s_maximumInterval := 3000;
                              s_jobStartTime := 0 |}
                   (timeRemaining {| s_expectedCompletionTime := 30000;
                                     s_coefficients := {| a := 0; b := 0; c := -5 |};
                                     s_minimumInterval := -1000;
                                     s_maximumInterval := 3000;
                                     s_jobStartTime := 0 |} 0) < 0)
    by (vm_compute; reflexivity).
  specialize (H Hle Hraw). vm_compute in H. discriminate H.
Qed.

(** C3 (monotone interval).  With non-negative [a] and [b] the
    interval does not grow as the elapsed time grows.  Once the elapsed time
    has reached [expectedCompletionTime], the time remaining is 0 and the
    interval is [max (minimumInterval, min (c, maximumInterval))] from then
    on; this is [minimumInterval] when [c <= minimumInterval]. *)
Theorem predictive_interval_monotone (s : Settings) (e1 e2 : Q) :
  0 <= a (s_coefficients s) -> 0 <= b (s_coefficients s) ->
  (e1 <= e2 -> interval_at s e2 <= interval_at s e1)
  /\ (s_expectedCompletionTime s <= e1 ->
      timeRemaining s e1 == 0
      /\ interval_at s e1
         == Qmax (s_minimumInterval s)
              (Qmin (c (s_coefficients s)) (s_maximumInterval s))
      /\ (c (s_coefficients s) <= s_minimumInterval s ->
          interval_at s e1 == s_minimumInterval s)).
Proof.
  intros Ha Hb. split.
  - intros H. unfold interval_at.
    apply Q.max_le_compat_l, Q.min_le_compat_r.
    apply quadratic_monotone; auto using timeRemaining_nonneg, timeRemaining_antitone.
  - intros H. pose proof (timeRemaining_past s e1 H) as Ht.
    pose proof (quadratic_at_0 s _ Ht) as Hq.
    assert (Hi : interval_at s e1
                 == Qmax (s_minimumInterval s)
                      (Qmin (c (s_coefficients s)) (s_maximumInterval s))).
    { unfold interval_at. cbv zeta. now rewrite Hq. }
    split; [exact Ht|]. split; [exact Hi|].
    intros Hc. rewrite Hi. apply Q.max_l.
    eapply Qle_trans; [apply Q.le_min_l | exact Hc].
Qed.

Lemma predictive_interval_monotone_witness :
  interval_at test_settings 29000 <= interval_at test_settings 10000
  /\ interval_at test_settings 31000 == 1000.
Proof.
  assert (Ha : 0 <= a (s_coefficients test_settings)) by (vm_compute; discriminate).
  assert (Hb : 0 <= b (s_coefficients test_settings)) by (vm_compute; discriminate).
  split.
  - refine (proj1 (predictive_interval_monotone test_settings 10000 29000 Ha Hb) _).
    vm_compute. discriminate.
  - refine (Qeq_trans _ _ _
              (proj1 (proj2 (proj2 (predictive_interval_monotone
                                      test_settings 31000 31000 Ha Hb) _))) _).
    + vm_compute. discriminate.
    + vm_compute. reflexivity.
Defined.

(** Past the deadline the interval is the clamped [c]: with the options of
    the repository's test ([c: 1000], [minimumInterval: 500]) it is 1000. *)
Lemma past_deadline_interval_is_c : ~ past_deadline_gives_minimum_for_all.
Proof.
  intros H.
  assert (Ha : 0 <= a (s_coefficients test_settings)) by (vm_compute; discriminate).
  assert (Hb : 0 <= b (s_coefficients test_settings)) by (vm_compute; discriminate).
  assert (He : s_expectedCompletionTime test_settings <= 30000)
    by (vm_compute; discriminate).
  specialize (H test_settings 30000 Ha Hb He).
  vm_compute in H. discriminate H.
Qed.

End StrategyFacts.

(** * Further properties of the server *)

Module ServerExtras.
Import Server Spec Derived ServerFacts.

Lemma prototype_name_spec id :
  existsb (String.eqb id) Object_prototype = true <-> In id Object_prototype.
Proof.
  rewrite existsb_exists. split.
  - intros (x & Hin & Heq). apply String.eqb_eq in Heq. now subst x.
  - intros Hin. exists id. split; [exact Hin | apply String.eqb_refl].
Qed.

Lemma prototype_name_truthy id :
  In id Object_prototype -> JS.truthy (JS.VString id) = true.
Proof.
  unfold Object_prototype. cbn [In]. intros H.
  repeat (destruct H as [H|H]; [subst id; reflexivity|]). contradiction.
Qed.

(** What a successful POST /create has done. *)
Lemma create_success env videos videoID random1 random2 now id message :
  snd (create env videos videoID random1 random2 now) = JsonCreated id message ->
  videoID = Some id
  /\ JS.truthy (JS.VString id) = true
  /\ get videos id = Absent
  /\ fst (create env videos videoID random1 random2 now)
     = <[id := {| startTime := now;
                  delay := random_delay (MIN_DELAY env) (MAX_DELAY env) random1;
                  status := random_status (ERROR_RATE env) random2 |}]> videos.
Proof.
  unfold create. destruct videoID as [k|]; [|discriminate].
  destruct (JS.truthy (JS.VString k)) eqn:Ht; cbn [negb]; [|discriminate].
  destruct (get videos k) eqn:Hg; cbn [fst snd]; try discriminate.
  intros H. inversion H; subst. auto.
Qed.

Lemma plain_store_empty : plain_store ∅.
Proof. intros id job H. rewrite lookup_empty in H. discriminate. Qed.

Lemma plain_store_handle env videos r :
  plain_store videos -> plain_store (fst (handle env videos r)).
Proof.
  intros Hk.
  destruct r as [[id|] r1 r2 now | [id|] now]; cbn [handle create getStatus fst];
    try exact Hk.
  - destruct (JS.truthy (JS.VString id)) eqn:Ht; cbn [negb fst]; [|exact Hk].
    destruct (get videos id) eqn:Hg; cbn [fst]; try exact Hk.
    intros k j. rewrite lookup_insert. case_decide; [|apply Hk].
    subst k. intros Hj. inversion Hj; subst j. cbn [delay].
    split; [exact Ht|].
    unfold get in Hg. destruct (videos !! id); [discriminate|].
    destruct (existsb (String.eqb id) Object_prototype); [discriminate | reflexivity].
  - destruct (JS.truthy (JS.VString id)) eqn:Ht; cbn [negb fst]; [|exact Hk].
    destruct (get videos id) as [video| |] eqn:Hg; cbn [fst]; try exact Hk.
    destruct (due video now); cbn [fst]; [|exact Hk].
    apply get_own_inv in Hg.
    intros k j. rewrite lookup_insert. case_decide; [|apply Hk].
    subst k. intros Hj. inversion Hj; subst j. cbn [delay].
    exact (Hk id video Hg).
Qed.

Lemma plain_store_serve env videos rs :
  plain_store videos -> plain_store (serve env videos rs).
Proof.
  revert videos. induction rs as [|r rs IH]; intros videos Hk; [exact Hk|].
  simpl. apply IH. now apply plain_store_handle.
Qed.

(** An entry over a sequence of requests. *)
Lemma serve_entry env videos rs id job :
  videos !! id = Some job ->
  exists job', serve env videos rs !! id = Some job'
    /\ startTime job' = startTime job /\ delay job' = delay job
    /\ (status job' = status job \/ (status job = pending /\ status job' = completed)).
Proof.
  revert videos job. induction rs as [|r rs IH]; intros videos job Hj.
  - exists job. auto.
  - destruct (handle_entry env videos r id job Hj) as (j1 & Hj1 & Ht1 & Hd1 & Hs1).
    destruct (IH _ _ Hj1) as (j2 & Hj2 & Ht2 & Hd2 & Hs2).
    exists j2. split; [exact Hj2|]. split; [congruence|]. split; [congruence|].
    destruct Hs1 as [Hs1|[Hp Hc]], Hs2 as [Hs2|[Hp2 Hc2]].
    + left. congruence.
    + right. split; congruence.
    + right. split; congruence.
    + congruence.
Qed.

Lemma reachable_store_plain_aux env rs id job :
  serve env ∅ rs !! id = Some job -> In id Object_prototype -> False.
Proof.
  intros Hj Hin.
  destruct (plain_store_serve env ∅ rs plain_store_empty id job Hj) as (_ & Hp).
  apply prototype_name_spec in Hin. congruence.
Qed.

Lemma create_all_or_nothing_aux env videos videoID random1 random2 now :
  (forall e, snd (create env videos videoID random1 random2 now) = Json400 e ->
     fst (create env videos videoID random1 random2 now) = videos)
  /\ (forall e, snd (create env videos videoID random1 random2 now) <> Json404 e)
  /\ (forall v, snd (create env videos videoID random1 random2 now) <> JsonResult v).
Proof.
  unfold create. destruct videoID as [k|];
    [|repeat split; try discriminate; reflexivity].
  destruct (JS.truthy (JS.VString k)); cbn [negb];
    [|repeat split; try discriminate; reflexivity].
  destruct (get videos k); cbn [fst snd]; repeat split; try discriminate;
    reflexivity.
Qed.



Lemma handle_other env videos r id :
  request_id r <> Some id ->
  fst (handle env videos r) !! id = videos !! id.
Proof.
  intros Hne.
  destruct r as [[k|] r1 r2 now | [k|] now]; cbn [handle create getStatus fst];
    try reflexivity;
    cbn [request_id] in Hne;
    (destruct (JS.truthy (JS.VString k)); cbn [negb fst]; [|reflexivity]);
    (destruct (get videos k) as [video| |]; cbn [fst]; try reflexivity).
  - apply lookup_insert_ne. congruence.
  - destruct (due video now); cbn [fst]; [|reflexivity].
    apply lookup_insert_ne. congruence.
Qed.

(** X2 (requests about other ids leave an id alone).  A sequence of
    requests none of which is about [id] changes nothing under [id]: the
    entry, or its absence, is what it was. *)
Theorem handle_frame env videos rs id :
  Forall (fun r => request_id r <> Some id) rs ->
  serve env videos rs !! id = videos !! id.
Proof.
  revert videos. induction rs as [|r rs IH]; intros videos Hall; [reflexivity|].
  inversion Hall as [|r' rs' Hr Hrs]; subst.
  simpl. rewrite (IH _ Hrs). now apply handle_other.
Qed.

Lemma handle_frame_witness :
  serve default_env (serve default_env ∅ demo_history)
    [PostCreate (Some "t2"%string) 0 0 300; GetStatus (Some "t2"%string) 90000]
  !! "t1"%string
  = serve default_env ∅ demo_history !! "t1"%string.
Proof.
  apply handle_frame.
  repeat constructor; cbn [request_id]; discriminate.
Defined.

(** X3 (an entry is kept).  Over any sequence of requests an entry is
    never removed, its start time and delay never change, and its status
    either stays what it was or goes from 'pending' to 'completed'; so a
    status 'completed' or 'error' is final. *)
Theorem entry_persists env videos rs id job :
  videos !! id = Some job ->
  exists job', serve env videos rs !! id = Some job'
    /\ startTime job' = startTime job /\ delay job' = delay job
    /\ (status job' = status job \/ (status job = pending /\ status job' = completed))
    /\ (status job <> pending -> job' = job).
Proof.
  intros Hj.
  destruct (serve_entry env videos rs id job Hj) as (job' & Hj' & Hst & Hd & Hs).
  exists job'. split; [exact Hj'|]. split; [exact Hst|]. split; [exact Hd|].
  split; [exact Hs|].
  intros Hne. apply job_eta; try assumption.
  destruct Hs as [Hs|[Hp _]]; [exact Hs | contradiction].
Qed.

Lemma entry_persists_witness :
  exists job',
    serve default_env (serve default_env ∅ demo_history)
      [GetStatus (Some "t1"%string) 90000; PostCreate (Some "t1"%string) 0 0 90001]
    !! "t1"%string = Some job'
    /\ startTime job' = 100 /\ delay job' = JS.VNumber 27500
    /\ (status job' = pending \/ (pending = pending /\ status job' = completed))
    /\ (pending <> pending -> job' = demo_job).
Proof.
  refine (entry_persists default_env (serve default_env ∅ demo_history) _
            "t1"%string demo_job _).
  vm_compute. reflexivity.
Defined.

(** An entry appears under an id that had none only by a POST /create for
    that id. *)
Lemma handle_new env videos r id job :
  videos !! id = None ->
  fst (handle env videos r) !! id = Some job ->
  exists random1 random2 now,
    r = PostCreate (Some id) random1 random2 now
    /\ job = {| startTime := now;
                delay := random_delay (MIN_DELAY env) (MAX_DELAY env) random1;
                status := random_status (ERROR_RATE env) random2 |}.
Proof.
  intros Hn Hj.
  destruct r as [[k|] r1 r2 now | [k|] now]; cbn [handle create getStatus fst] in Hj;
    try congruence.
  - destruct (JS.truthy (JS.VString k)); cbn [negb fst] in Hj; [|congruence].
    destruct (get videos k) eqn:Hg; cbn [fst] in Hj; try congruence.
    rewrite lookup_insert in Hj. case_decide; [|congruence]. subst k.
    inversion Hj. eauto.
  - destruct (JS.truthy (JS.VString k)); cbn [negb fst] in Hj; [|congruence].
    destruct (get videos k) as [video| |] eqn:Hg; cbn [fst] in Hj; try congruence.
    destruct (due video now); cbn [fst] in Hj; [|congruence].
    apply get_own_inv in Hg.
    rewrite lookup_insert in Hj. case_decide; congruence.
Qed.

(** Where an entry of the store comes from. *)
Lemma serve_provenance env rs :
  forall videos id job,
    videos !! id = None ->
    serve env videos rs !! id = Some job ->
    exists random1 random2,
      In (PostCreate (Some id) random1 random2 (startTime job)) rs
      /\ delay job = random_delay (MIN_DELAY env) (MAX_DELAY env) random1
      /\ (status job = random_status (ERROR_RATE env) random2
          \/ (random_status (ERROR_RATE env) random2 = pending
              /\ status job = completed)).
Proof.
  induction rs as [|r rs IH]; intros videos id job Hn Hj.
  - simpl in Hj. congruence.
  - change (serve env (fst (handle env videos r)) rs !! id = Some job) in Hj.
    destruct (fst (handle env videos r) !! id) as [job0|] eqn:H0.
    + destruct (handle_new _ _ _ _ _ Hn H0) as (r1 & r2 & now & -> & Hjob0).
      destruct (serve_entry env _ rs id job0 H0) as (j' & Hj' & Hst & Hd & Hs).
      rewrite Hj in Hj'. inversion Hj'; subst j'. subst job0.
      cbn [startTime delay status] in Hst, Hd, Hs.
      exists r1, r2. rewrite Hst. split; [left; reflexivity|].
      split; [exact Hd | exact Hs].
    + destruct (IH _ _ _ H0 Hj) as (r1 & r2 & Hin & Hd & Hs).
      exists r1, r2. split; [right; exact Hin|]. split; [exact Hd | exact Hs].
Qed.

(** X4 (where the entries come from).  In every store the server reaches
    from the empty one by requests whose [videoID] is absent or a text: a
    key is non-empty and not the name of a property of [Object.prototype];
    and every entry was written by one of the POST /create requests for its
    key, its start time being that request's clock reading, its delay the
    value line 68 computed from that request's first random draw, and its
    status the one line 69 computed from the second draw, or 'completed'
    when that one was 'pending'. *)
Theorem reachable_store_plain env rs id job :
  serve env ∅ rs !! id = Some job ->
  id <> ""%string /\ ~ In id Object_prototype
  /\ exists random1 random2,
       In (PostCreate (Some id) random1 random2 (startTime job)) rs
       /\ delay job = random_delay (MIN_DELAY env) (MAX_DELAY env) random1
       /\ (status job = random_status (ERROR_RATE env) random2
           \/ (random_status (ERROR_RATE env) random2 = pending
               /\ status job = completed)).
Proof.
  intros Hj.
  destruct (plain_store_serve env ∅ rs plain_store_empty id job Hj) as (Ht & Hp).
  split; [intros ->; discriminate Ht|]. split.
  - intros Hin. apply prototype_name_spec in Hin. congruence.
  - apply (serve_provenance env rs ∅ id job); [apply lookup_empty | exact Hj].
Qed.

Lemma reachable_store_plain_witness :
  "t1"%string <> ""%string /\ ~ In "t1"%string Object_prototype
  /\ exists random1 random2,
       In (PostCreate (Some "t1"%string) random1 random2 100) demo_history
       /\ JS.VNumber 27500
          = random_delay (MIN_DELAY default_env) (MAX_DELAY default_env) random1
       /\ (pending = random_status (ERROR_RATE default_env) random2
           \/ (random_status (ERROR_RATE default_env) random2 = pending
               /\ pending = completed)).
Proof.
  refine (reachable_store_plain default_env demo_history "t1"%string demo_job _).
  vm_compute. reflexivity.
Defined.

Lemma getStatus_404_unchanged videos videoID now e :
  snd (getStatus videos videoID now) = Json404 e ->
  fst (getStatus videos videoID now) = videos.
Proof.
  unfold getStatus. destruct videoID as [k|]; [|reflexivity].
  destruct (JS.truthy (JS.VString k)); cbn [negb]; [|reflexivity].
  destruct (get videos k) as [video| |]; cbn [fst snd]; try reflexivity.
  destruct (due video now); cbn [fst snd]; [discriminate | reflexivity].
Qed.

Lemma getStatus_unknown videos id now :
  videos !! id = None -> ~ In id Object_prototype ->
  getStatus videos (Some id) now = (videos, Json404 "Video not found").
Proof.
  intros Hn Hp. unfold getStatus.
  destruct (JS.truthy (JS.VString id)); cbn [negb]; [|reflexivity].
  unfold get. rewrite Hn.
  destruct (existsb (String.eqb id) Object_prototype) eqn:He; [|reflexivity].
  apply prototype_name_spec in He. contradiction.
Qed.

(** X5 (GET /status keeps the keys).  GET /status never adds or removes an
    entry; when it answers 404 the store is returned as it was; and it
    answers 404 for every id that is neither in the store nor the name of a
    property of [Object.prototype]. *)
Theorem getStatus_keeps_keys videos videoID now :
  dom (fst (getStatus videos videoID now)) = dom videos
  /\ (forall e, snd (getStatus videos videoID now) = Json404 e ->
        fst (getStatus videos videoID now) = videos)
  /\ (forall id, videoID = Some id -> videos !! id = None ->
        ~ In id Object_prototype ->
        getStatus videos videoID now = (videos, Json404 "Video not found")).
Proof.
  split; [|split].
  - unfold getStatus. destruct videoID as [k|]; [|reflexivity].
    destruct (JS.truthy (JS.VString k)); cbn [negb]; [|reflexivity].
    destruct (get videos k) as [video| |] eqn:Hg; cbn [fst]; try reflexivity.
    destruct (due video now); cbn [fst]; [|reflexivity].
    apply get_own_inv in Hg. rewrite dom_insert_L.
    assert (Hin : k ∈ dom videos) by (apply elem_of_dom; eauto).
    apply set_eq. intros x. rewrite elem_of_union, elem_of_singleton.
    split; [intros [->|Hx]; assumption | auto].
  - intros e. apply getStatus_404_unchanged.
  - intros id -> Hn Hp. now apply getStatus_unknown.
Qed.

Lemma getStatus_keeps_keys_witness :
  getStatus (serve default_env ∅ demo_history) (Some "nope"%string) 5
  = (serve default_env ∅ demo_history, Json404 "Video not found").
Proof.
  refine (proj2 (proj2 (getStatus_keeps_keys (serve default_env ∅ demo_history)
                          (Some "nope"%string) 5)) "nope"%string eq_refl _ _).
  - vm_compute. reflexivity.
  - cbn [In Object_prototype]. intros H.
    repeat (destruct H as [H|H]; [discriminate H|]). exact H.
Defined.

(** X6 (names of [Object.prototype]).  [videos] is a plain object, so for
    an id such as "constructor" or "toString" the read [videos[videoID]]
    finds the inherited property: in every store the server reaches,
    POST /create answers 400 'already exists' although no such job was
    created, and GET /status answers 200 with an undefined result instead
    of 404; the store is unchanged by both. *)
Theorem prototype_names_shadowed env rs id random1 random2 now :
  In id Object_prototype ->
  create env (serve env ∅ rs) (Some id) random1 random2 now
  = (serve env ∅ rs,
     Json400 (String.append "VideoID '"
                (String.append id "' already exists. Please choose a different ID.")))
  /\ getStatus (serve env ∅ rs) (Some id) now
     = (serve env ∅ rs, JsonResult JS.VUndefined).
Proof.
  intros Hin.
  pose proof (prototype_name_truthy id Hin) as Ht.
  assert (Hg : get (serve env ∅ rs) id = Inherited).
  { unfold get. destruct (serve env ∅ rs !! id) as [job|] eqn:Hj.
    - destruct (reachable_store_plain_aux env rs id job Hj Hin).
    - apply prototype_name_spec in Hin. now rewrite Hin. }
  unfold create, getStatus. rewrite Ht, Hg. cbn [negb]. split; reflexivity.
Qed.

Lemma prototype_names_shadowed_witness :
  getStatus (serve default_env ∅ demo_history) (Some "toString"%string) 5
  = (serve default_env ∅ demo_history, JsonResult JS.VUndefined).
Proof.
  refine (proj2 (prototype_names_shadowed default_env demo_history
                   "toString"%string 0 0 5 _)).
  cbn [In Object_prototype]. do 6 right. left. reflexivity.
Defined.



(** X8 (a draw within the error rate).  When [ERROR_RATE] reads as the
    number [p] and the second result of [Math.random()] does not exceed [p]
    (every result, when [p >= 1]), a job that POST /create has created is
    stored in status 'error', stays exactly as stored, and GET /status
    answers 'error' for it at every later time, whatever requests come in
    between. *)
Theorem draw_within_rate_is_error env videos id message random1 random2 now (p : Q) :
  snd (create env videos (Some id) random1 random2 now) = JsonCreated id message ->
  JS.ToNumber (ERROR_RATE env) = Some p -> (random2 <= p)%Q ->
  forall rs now',
    serve env (fst (create env videos (Some id) random1 random2 now)) rs !! id
    = Some {| startTime := now;
              delay := random_delay (MIN_DELAY env) (MAX_DELAY env) random1;
              status := error |}
    /\ snd (getStatus
              (serve env (fst (create env videos (Some id) random1 random2 now)) rs)
              (Some id) now')
       = JsonResult (JS.VString "error").
Proof.
  intros Hc Hp Hle rs now'.
  destruct (create_success _ _ _ _ _ _ _ _ Hc) as (_ & Ht & _ & Hs).
  assert (Herr : random_status (ERROR_RATE env) random2 = error).
  { unfold random_status. rewrite gt_number, Hp.
    apply Qle_bool_iff in Hle. now rewrite Hle. }
  rewrite Hs, Herr.
  set (job := {| startTime := now; delay := _; status := error |}).
  assert (Hkeep : serve env (<[id := job]> videos) rs !! id = Some job).
  { apply serve_settled; [apply lookup_insert_eq | discriminate]. }
  split; [exact Hkeep|].
  rewrite (getStatus_own _ _ _ now' Hkeep Ht).
  unfold due. cbn [status job]. rewrite andb_false_r. reflexivity.
Qed.

Lemma draw_within_rate_is_error_witness :
  snd (getStatus
         (serve sure_error_env
            (fst (create sure_error_env ∅ (Some "t1"%string) (1 # 2) (9 # 10) 100))
            [GetStatus (Some "t1"%string) 99000])
         (Some "t1"%string) 99999)
  = JsonResult (JS.VString "error").
Proof.
  refine (proj2 (draw_within_rate_is_error sure_error_env ∅ "t1"%string
                   "Video translation added. Check status using /status?videoID=t1"%string
                   (1 # 2) (9 # 10) 100 1%Q _ _ _ _ 99999)).
  - vm_compute. reflexivity.
  - vm_compute. reflexivity.
  - vm_compute. discriminate.
Defined.

(** X9 (completion by the deadline).  In every store the server reaches, a
    job that is not in status 'error' and whose delay is the integer [d] is
    reported 'completed' by every GET /status made at or after
    [startTime + d], whatever requests came before it. *)
Theorem completed_by_deadline env history id job (d : Z) rs now' :
  serve env ∅ history !! id = Some job ->
  status job <> error ->
  delay job = JS.VNumber (inject_Z d) ->
  startTime job + d <= now' ->
  snd (getStatus (serve env (serve env ∅ history) rs) (Some id) now')
  = JsonResult (JS.VString "completed").
Proof.
  intros Hj Hne Hd Hle.
  assert (Ht : JS.truthy (JS.VString id) = true).
  { eapply keys_truthy_serve; [apply keys_truthy_empty | exact Hj]. }
  destruct (serve_entry env _ rs id job Hj) as (j' & Hj' & Hst & Hdl & Hs).
  rewrite (getStatus_own _ _ _ now' Hj' Ht).
  unfold due. rewrite Hst, Hdl, Hd.
  assert (Hge : JS.ge (JS.VNumber (inject_Z (now' - startTime job)))
                  (JS.VNumber (inject_Z d)) = true).
  { cbn [JS.ge JS.ToNumber]. apply Qle_bool_iff. rewrite <- Zle_Qle. lia. }
  rewrite Hge. cbn [andb].
  destruct (status j') eqn:Hsj; cbn [snd status_name]; try reflexivity.
  destruct Hs as [Hs|[_ Hs]]; congruence.
Qed.

Lemma completed_by_deadline_witness :
  snd (getStatus
         (serve default_env (serve default_env ∅ demo_history)
            [GetStatus (Some "t1"%string) 200])
         (Some "t1"%string) 27600)
  = JsonResult (JS.VString "completed").
Proof.
  refine (completed_by_deadline default_env demo_history "t1"%string demo_job 27500
            _ 27600 _ _ _ _).
  - vm_compute. reflexivity.
  - discriminate.
  - reflexivity.
  - vm_compute. discriminate.
Defined.

(** X10 (a delay that is not a number).  When the stored delay is NaN, as
    it is when [MIN_DELAY] in the environment is not numeric, the comparison
    [elapsedTime >= video.delay] is never true: a 'pending' job stays as it
    is and GET /status answers 'pending' at every time, never 'completed'. *)
Theorem nan_delay_never_completes env history id job rs now' :
  serve env ∅ history !! id = Some job ->
  status job = pending ->
  JS.ToNumber (delay job) = None ->
  serve env (serve env ∅ history) rs !! id = Some job
  /\ snd (getStatus (serve env (serve env ∅ history) rs) (Some id) now')
     = JsonResult (JS.VString "pending").
Proof.
  intros Hj Hp Hnan.
  assert (Ht : JS.truthy (JS.VString id) = true).
  { eapply keys_truthy_serve; [apply keys_truthy_empty | exact Hj]. }
  assert (Hdue : forall t, due job t = false).
  { intros t. unfold due. now rewrite ge_number, Hnan. }
  assert (Hnever : forall requests videos,
            videos !! id = Some job -> serve env videos requests !! id = Some job).
  { induction requests as [|r requests IH]; intros videos Hv; [exact Hv|].
    simpl. apply IH.
    destruct (decide (request_id r = Some id)) as [Hr|Hr];
      [|now rewrite handle_other].
    destruct r as [k r1 r2 now | k now]; cbn [request_id] in Hr; subst k;
      cbn [handle].
    - unfold create. rewrite Ht. cbn [negb]. now rewrite (get_own _ _ _ Hv).
    - now rewrite (getStatus_own _ _ _ now Hv Ht), Hdue. }
  pose proof (Hnever rs _ Hj) as Hk. split; [exact Hk|].
  now rewrite (getStatus_own _ _ _ now' Hk Ht), Hdue, Hp.
Qed.

Lemma nan_delay_never_completes_witness :
  snd (getStatus
         (serve garbled_env (serve garbled_env ∅ demo_history)
            [GetStatus (Some "t1"%string) 500000])
         (Some "t1"%string) 900000)
  = JsonResult (JS.VString "pending").
Proof.
  refine (proj2 (nan_delay_never_completes garbled_env demo_history "t1"%string
                   {| startTime := 100; delay := JS.VNaN; status := pending |}
                   _ 900000 _ _ _)).
  - vm_compute. reflexivity.
  - reflexivity.
  - reflexivity.
Defined.

End ServerExtras.

(** * Further properties of the polling loop *)

Module LoopExtras.
Import Client Derived LoopFacts.

Local Open Scope Q_scope.

Section Terminal.
Context {State Input : Type}.
Variable poll : State -> Input -> list Effect * State.
Variable answer : Input -> CheckResult.
Variable interval : State -> Input -> Q.

Hypothesis poll_effects : forall st i,
  fst (poll st i) =
    match answer i with
    | Returned status =>
        if strict_eq status "completed" then [Resolve (JS.VString "completed")]
        else if strict_eq status "error" then
          [Reject (JS.Error "Error in video translation.")]
        else [SetTimeout (interval st i)]
    | Thrown error => [Reject error]
    end.

Lemma poll_terminal st i :
  nonterminal (answer i) = false ->
  exists e, fst (poll st i) = [e] /\ timers [e] = []
            /\ settle Unsettled e = verdict (answer i)
            /\ verdict (answer i) <> Unsettled.
Proof.
  intros H. rewrite poll_effects. unfold nonterminal, verdict in *.
  destruct (answer i) as [status|err].
  - destruct (strict_eq status "completed").
    + eexists. repeat split. discriminate.
    + destruct (strict_eq status "error"); [|discriminate H].
      eexists. repeat split. discriminate.
  - eexists. repeat split. discriminate.
Qed.

(** Every script is all non-terminal or has a first terminal answer. *)
Lemma split_terminal (script : list Input) :
  forallb (fun i => nonterminal (answer i)) script = true
  \/ exists pre x tail,
       script = pre ++ x :: tail
       /\ forallb (fun i => nonterminal (answer i)) pre = true
       /\ nonterminal (answer x) = false.
Proof.
  induction script as [|i script IH]; [now left|].
  destruct (nonterminal (answer i)) eqn:Hi.
  - destruct IH as [IH | (pre & x & tail & -> & Hpre & Hx)].
    + left. cbn [forallb]. now rewrite Hi, IH.
    + right. exists (i :: pre), x, tail. cbn [forallb app]. now rewrite Hi, Hpre.
  - right. exists [], i, script. auto.
Qed.

(** The first terminal answer ends the run: what follows it is not used,
    and the timers that fired are the ones set before it. *)
Lemma loop_first_terminal st pre x tail :
  forallb (fun i => nonterminal (answer i)) pre = true ->
  nonterminal (answer x) = false ->
  loop poll st (pre ++ x :: tail) start = loop poll st (pre ++ [x]) start
  /\ promise (loop poll st (pre ++ [x]) start) = verdict (answer x)
  /\ checks (loop poll st (pre ++ [x]) start) = S (length pre)
  /\ queued (loop poll st (pre ++ [x]) start) = []
  /\ waits (loop poll st (pre ++ [x]) start) = intervals poll interval st pre.
Proof.
  intros Hpre Hx.
  destruct (poll_terminal (advance poll st pre) x Hx) as (e & He & Ht & Hs & _).
  destruct (loop_pending poll answer interval poll_effects pre st start Immediate
              Hpre eq_refl) as (Hp & Hc & Hd & t' & Hq).
  rewrite !loop_app, !(loop_cons _ _ _ _ _ _ _ Hq).
  assert (Hidle : forall rest,
            loop poll (snd (poll (advance poll st pre) x)) rest
              (after_cycle t' (fst (poll (advance poll st pre) x))
                 (loop poll st pre start) [])
            = after_cycle t' (fst (poll (advance poll st pre) x))
                (loop poll st pre start) []).
  { intros rest. apply loop_idle. unfold after_cycle. cbn [queued]. now rewrite He. }
  rewrite !Hidle. split; [reflexivity|].
  unfold after_cycle. cbn [promise checks queued waits]. rewrite He, Hp, Hc.
  repeat split; auto.
  unfold delays in Hd. rewrite Hq in Hd.
  cbn [start waits queued flat_map task_interval app] in Hd.
  rewrite app_nil_r in Hd. rewrite <- Hd.
  destruct t'; cbn [task_interval]; [now rewrite app_nil_r | reflexivity].
Qed.

(** What holds of a run whatever the answers are. *)
Lemma loop_invariants st script :
  (length (queued (loop poll st script start)) <= 1)%nat
  /\ (promise (loop poll st script start) = Unsettled
      <-> forallb (fun i => nonterminal (answer i)) script = true)
  /\ (promise (loop poll st script start) <> Unsettled ->
      queued (loop poll st script start) = [])
  /\ (checks (loop poll st script start) <= length script)%nat
  /\ (promise (loop poll st script start) = Unsettled ->
      checks (loop poll st script start) = length script).
Proof.
  destruct (split_terminal script) as [Hall | (pre & x & tail & -> & Hpre & Hx)].
  - destruct (loop_pending poll answer interval poll_effects script st start
                Immediate Hall eq_refl) as (Hp & Hc & _ & t' & Hq).
    rewrite Hp, Hc, Hq. cbn [start promise checks length].
    split; [lia|]. split; [tauto|]. split; [congruence|]. split; [lia | auto].
  - destruct (loop_first_terminal st pre x tail Hpre Hx) as (-> & Hp & Hc & Hq & _).
    destruct (poll_terminal (advance poll st pre) x Hx) as (e & _ & _ & _ & Hv).
    rewrite Hp, Hc, Hq. rewrite length_app. cbn [length].
    assert (Hfalse : forallb (fun i => nonterminal (answer i)) (pre ++ x :: tail)
                     = false).
    { rewrite forallb_app. cbn [forallb]. rewrite Hx. apply andb_false_r. }
    rewrite Hfalse. split; [cbn; lia|]. split; [split; [congruence|discriminate]|].
    split; [auto|]. split; [lia | congruence].
Qed.

(** The timers of a run are those of a prefix of non-terminal answers. *)
Lemma loop_delays st script :
  exists pre rest,
    script = pre ++ rest
    /\ forallb (fun i => nonterminal (answer i)) pre = true
    /\ delays (loop poll st script start) = intervals poll interval st pre.
Proof.
  destruct (split_terminal script) as [Hall | (pre & x & tail & -> & Hpre & Hx)].
  - exists script, []. rewrite app_nil_r. split; [reflexivity|]. split; [exact Hall|].
    destruct (loop_pending poll answer interval poll_effects script st start
                Immediate Hall eq_refl) as (_ & _ & Hd & _).
    exact Hd.
  - exists pre, (x :: tail). split; [reflexivity|]. split; [exact Hpre|].
    destruct (loop_first_terminal st pre x tail Hpre Hx) as (-> & _ & _ & Hq & Hw).
    unfold delays. rewrite Hq, Hw. apply app_nil_r.
Qed.
End Terminal.

End LoopExtras.

(** * Further properties of the two strategies *)

Module StrategyExtras.
Import Client Spec Derived LoopFacts LoopExtras StrategyFacts.

Local Open Scope Q_scope.

Lemma expectedTime_intervals cfg script :
  intervals (expectedTime_poll cfg)
    (fun _ i => interval_at cfg (inject_Z (snd i) - s_jobStartTime cfg)) tt script
  = map (fun i => interval_at cfg (inject_Z (snd i) - s_jobStartTime cfg)) script.
Proof.
  induction script as [|i script IH]; [reflexivity|].
  cbn [intervals map]. f_equal. now destruct (snd (expectedTime_poll cfg tt i)).
Qed.

(** X11 (what every run keeps).  In both strategies, whatever the status
    checks answer: at most one call of [poll] is ever queued; the promise is
    unsettled exactly when all answers so far were non-terminal, and then
    every answer has been consumed; once the promise is settled nothing is
    queued; and there are never more status checks than answers. *)
Theorem run_invariants (options : ExponentialOptions) (script : list CheckResult)
    (eoptions : ExpectedTimeOptions) (now : Z) (e : Q)
    (escript : list (CheckResult * Z)) :
  expectedCompletionTime eoptions = Some e ->
  JS.truthy (JS.VNumber e) = true ->
  ((length (queued (exponentialStrategy options script)) <= 1)%nat
   /\ (promise (exponentialStrategy options script) = Unsettled
       <-> forallb nonterminal script = true)
   /\ (promise (exponentialStrategy options script) <> Unsettled ->
       queued (exponentialStrategy options script) = [])
   /\ (checks (exponentialStrategy options script) <= length script)%nat
   /\ (promise (exponentialStrategy options script) = Unsettled ->
       checks (exponentialStrategy options script) = length script))
  /\ ((length (queued (expectedTimeStrategy eoptions now escript)) <= 1)%nat
      /\ (promise (expectedTimeStrategy eoptions now escript) = Unsettled
          <-> forallb (fun i => nonterminal (fst i)) escript = true)
      /\ (promise (expectedTimeStrategy eoptions now escript) <> Unsettled ->
          queued (expectedTimeStrategy eoptions now escript) = [])
      /\ (checks (expectedTimeStrategy eoptions now escript) <= length escript)%nat
      /\ (promise (expectedTimeStrategy eoptions now escript) = Unsettled ->
          checks (expectedTimeStrategy eoptions now escript) = length escript)).
Proof.
  intros He Ht. rewrite (expectedTimeStrategy_loop _ _ _ _ He Ht). split.
  - apply (loop_invariants (exponential_poll _) (fun r => r) (fun st _ => st)
             (exponential_poll_effects _)).
  - apply (loop_invariants (expectedTime_poll _) fst
             (fun _ i => interval_at (settings eoptions now e)
                           (inject_Z (snd i)
                            - s_jobStartTime (settings eoptions now e)))
             (expectedTime_poll_effects _)).
Qed.

Lemma run_invariants_witness :
  promise (exponentialStrategy demo_options
             [pending_answer; Returned (JS.VString "error"); pending_answer])
  <> Unsettled
  /\ queued (exponentialStrategy demo_options
               [pending_answer; Returned (JS.VString "error"); pending_answer])
     = [].
Proof.
  pose proof (run_invariants demo_options
                [pending_answer; Returned (JS.VString "error"); pending_answer]
                test_options 0 30000 [] eq_refl eq_refl) as ((_ & Hiff & Hq & _) & _).
  assert (Hs : promise (exponentialStrategy demo_options
                          [pending_answer; Returned (JS.VString "error");
                           pending_answer]) <> Unsettled).
  { intros H. apply Hiff in H. discriminate H. }
  split; [exact Hs | exact (Hq Hs)].
Defined.

(** X12 (the first terminal answer decides).  In both strategies, when
    the answers before [x] are non-terminal and [x] is terminal ('completed',
    'error' or a failure), the run is the same whatever would have been
    answered after [x]: the promise is settled by [x], and the timers that
    fired are exactly the ones set for the answers before it. *)
Theorem first_terminal_decides
    (options : ExponentialOptions) (pre tail : list CheckResult) (x : CheckResult)
    (eoptions : ExpectedTimeOptions) (now : Z) (e : Q)
    (epre etail : list (CheckResult * Z)) (ex : CheckResult * Z) :
  forallb nonterminal pre = true -> nonterminal x = false ->
  expectedCompletionTime eoptions = Some e ->
  JS.truthy (JS.VNumber e) = true ->
  forallb (fun i => nonterminal (fst i)) epre = true -> nonterminal (fst ex) = false ->
  (exponentialStrategy options (pre ++ x :: tail)
   = exponentialStrategy options (pre ++ [x])
   /\ promise (exponentialStrategy options (pre ++ x :: tail)) = verdict x
   /\ checks (exponentialStrategy options (pre ++ x :: tail)) = S (length pre)
   /\ waits (exponentialStrategy options (pre ++ x :: tail))
      = map (backoff (or_default (initialInterval options) 1000)
                     (or_default (stableInterval options) 8000))
            (seq 0 (length pre)))
  /\ (expectedTimeStrategy eoptions now (epre ++ ex :: etail)
      = expectedTimeStrategy eoptions now (epre ++ [ex])
      /\ promise (expectedTimeStrategy eoptions now (epre ++ ex :: etail))
         = verdict (fst ex)
      /\ checks (expectedTimeStrategy eoptions now (epre ++ ex :: etail))
         = S (length epre)
      /\ waits (expectedTimeStrategy eoptions now (epre ++ ex :: etail))
         = map (fun i =>
                  interval_at (settings eoptions now e)
                    (inject_Z (snd i) - s_jobStartTime (settings eoptions now e)))
               epre).
Proof.
  intros Hpre Hx He Ht Hepre Hex.
  rewrite !(expectedTimeStrategy_loop _ _ _ _ He Ht). split.
  - unfold exponentialStrategy.
    destruct (loop_first_terminal
                (exponential_poll (or_default (stableInterval options) 8000))
                (fun r => r) (fun st _ => st)
                (exponential_poll_effects (or_default (stableInterval options) 8000))
                (or_default (initialInterval options) 1000) pre x tail Hpre Hx)
      as (Heq & Hp & Hc & _ & Hw).
    rewrite Heq. repeat split; auto.
    rewrite Hw. apply (exponential_intervals _ _ pre 0%nat Hpre).
  - destruct (loop_first_terminal (expectedTime_poll (settings eoptions now e)) fst
                (fun _ i => interval_at (settings eoptions now e)
                              (inject_Z (snd i)
                               - s_jobStartTime (settings eoptions now e)))
                (expectedTime_poll_effects (settings eoptions now e))
                tt epre ex etail Hepre Hex)
      as (Heq & Hp & Hc & _ & Hw).
    rewrite Heq. repeat split; auto.
    rewrite Hw. apply expectedTime_intervals.
Qed.

Lemma first_terminal_decides_witness :
  exponentialStrategy demo_options
    ([pending_answer; pending_answer] ++ Thrown (JS.Error "timeout") :: [pending_answer])
  = exponentialStrategy demo_options
      ([pending_answer; pending_answer] ++ [Thrown (JS.Error "timeout")])
  /\ waits (exponentialStrategy demo_options
              ([pending_answer; pending_answer]
               ++ Thrown (JS.Error "timeout") :: [pending_answer]))
     = [1000; 2000].
Proof.
  pose proof (first_terminal_decides demo_options [pending_answer; pending_answer]
                [pending_answer] (Thrown (JS.Error "timeout")) test_options 0 30000
                [] [] (Returned (JS.VString "completed"), 0%Z)
                eq_refl eq_refl eq_refl eq_refl eq_refl eq_refl)
    as ((Heq & _ & _ & Hw) & _).
  split; [exact Heq | exact Hw].
Defined.

(** ** The backoff sequence in closed form *)

Lemma pow2_succ n :
  inject_Z (2 ^ Z.of_nat (S n)) == inject_Z (2 ^ Z.of_nat n) * 2.
Proof.
  rewrite Nat2Z.inj_succ, Z.pow_succ_r by lia.
  rewrite inject_Z_mult. change (inject_Z 2) with 2. ring.
Qed.

Lemma pow2_pos n : 0 < inject_Z (2 ^ Z.of_nat n).
Proof.
  change 0 with (inject_Z 0). rewrite <- Zlt_Qlt. apply Z.pow_pos_nonneg; lia.
Qed.

Lemma pow2_mono n m : (n <= m)%nat -> inject_Z (2 ^ Z.of_nat n) <= inject_Z (2 ^ Z.of_nat m).
Proof. intros H. rewrite <- Zle_Qle. apply Z.pow_le_mono_r; lia. Qed.

Lemma double_min p s : 0 <= s -> Qmin (Qmin p s * 2) s == Qmin (p * 2) s.
Proof.
  intros Hs.
  destruct (Q.min_spec p s) as [[H1 E1]|[H1 E1]];
    destruct (Q.min_spec (Qmin p s * 2) s) as [[H2 E2]|[H2 E2]];
    destruct (Q.min_spec (p * 2) s) as [[H3 E3]|[H3 E3]];
    rewrite E2, E3; lra.
Qed.

Lemma backoff_closed initial stable n :
  0 <= stable ->
  backoff initial stable (S n)
  == Qmin (initial * inject_Z (2 ^ Z.of_nat (S n))) stable.
Proof.
  intros Hs. induction n as [|n IH].
  - cbn [backoff]. change (inject_Z (2 ^ Z.of_nat 1)) with 2. reflexivity.
  - change (backoff initial stable (S (S n)))
      with (Qmin (backoff initial stable (S n) * 2) stable).
    rewrite IH, (double_min _ _ Hs), (pow2_succ (S n)).
    now rewrite Qmult_assoc.
Qed.

Lemma exponential_delays options script :
  exists n, (n <= length script)%nat
    /\ delays (exponentialStrategy options script)
       = map (backoff (or_default (initialInterval options) 1000)
                      (or_default (stableInterval options) 8000))
             (seq 0 n).
Proof.
  unfold exponentialStrategy.
  destruct (loop_delays (exponential_poll (or_default (stableInterval options) 8000))
              (fun r => r) (fun st _ => st)
              (exponential_poll_effects (or_default (stableInterval options) 8000))
              (or_default (initialInterval options) 1000) script)
    as (pre & rest & Hscript & Hpre & Hd).
  exists (length pre). split.
  - rewrite Hscript, length_app. lia.
  - rewrite Hd. apply (exponential_intervals _ _ pre 0%nat Hpre).
Qed.

Lemma lookup_backoff initial stable n k x :
  map (backoff initial stable) (seq 0 n) !! k = Some x -> x = backoff initial stable k.
Proof.
  intros H. rewrite list_lookup_fmap in H.
  destruct (seq 0 n !! k) as [j|] eqn:Hj; [|discriminate].
  apply lookup_seq in Hj as [-> _]. cbn in H. congruence.
Qed.

(** X13 (backoff in closed form).  Whatever the status checks answer, the
    first timer [exponentialStrategy] sets has the initial interval, and
    when the stable interval is not negative the timer after [n] doublings
    has the interval [min (initial * 2^n, stable)]. *)
Theorem backoff_closed_form options script k x :
  delays (exponentialStrategy options script) !! k = Some x ->
  (k = 0%nat -> x = or_default (initialInterval options) 1000)
  /\ (0 <= or_default (stableInterval options) 8000 -> (1 <= k)%nat ->
      x == Qmin (or_default (initialInterval options) 1000
                 * inject_Z (2 ^ Z.of_nat k))
                (or_default (stableInterval options) 8000)).
Proof.
  intros Hx. destruct (exponential_delays options script) as (n & _ & Hd).
  rewrite Hd in Hx. apply lookup_backoff in Hx. subst x. split.
  - intros ->. reflexivity.
  - intros Hs Hk. destruct k as [|k]; [lia|]. now apply backoff_closed.
Qed.

Lemma backoff_closed_form_witness :
  4000 == Qmin (1000 * inject_Z (2 ^ Z.of_nat 2)) 8000.
Proof.
  refine (proj2 (backoff_closed_form demo_options (repeat pending_answer 5) 2 4000 _)
            _ _).
  - reflexivity.
  - vm_compute. discriminate.
  - lia.
Defined.

(** X14 (the backoff saturates).  With a stable interval that is not
    negative, once [initial * 2^n] has reached it every later timer has
    exactly the stable interval; when the initial interval is not below
    the stable one this holds from the second timer on. *)
Theorem backoff_saturates options script n m x :
  0 <= or_default (stableInterval options) 8000 ->
  or_default (stableInterval options) 8000
  <= or_default (initialInterval options) 1000 * inject_Z (2 ^ Z.of_nat n) ->
  (n <= m)%nat -> (1 <= m)%nat ->
  delays (exponentialStrategy options script) !! m = Some x ->
  x == or_default (stableInterval options) 8000.
Proof.
  intros Hs Hreach Hnm Hm Hx.
  destruct (exponential_delays options script) as (len & _ & Hd).
  rewrite Hd in Hx. apply lookup_backoff in Hx. subst x.
  set (i0 := or_default (initialInterval options) 1000) in *.
  set (s := or_default (stableInterval options) 8000) in *.
  destruct m as [|m]; [lia|]. rewrite (backoff_closed i0 s m Hs).
  apply Q.min_r.
  pose proof (pow2_pos n) as Hpn. pose proof (pow2_mono n (S m) Hnm) as Hmono.
  assert (Hi0 : 0 <= i0).
  { destruct (Qlt_le_dec i0 0) as [Hneg|Hok]; [|exact Hok].
    assert (0 < (0 - i0) * inject_Z (2 ^ Z.of_nat n))
      by (apply Qmult_lt_0_compat; lra).
    lra. }
  assert (0 <= i0 * (inject_Z (2 ^ Z.of_nat (S m)) - inject_Z (2 ^ Z.of_nat n)))
    by (apply Qmult_le_0_compat; lra).
  lra.
Qed.

Lemma backoff_saturates_witness :
  8000 == or_default (stableInterval demo_options) 8000.
Proof.
  refine (backoff_saturates demo_options (repeat pending_answer 6) 3 5 8000 _ _ _ _ _).
  - vm_compute. discriminate.
  - vm_compute. discriminate.
  - lia.
  - lia.
  - reflexivity.
Defined.

(** ** The timers of expectedTimeStrategy *)

Lemma interval_at_antitone cfg e1 e2 :
  0 <= a (s_coefficients cfg) -> 0 <= b (s_coefficients cfg) ->
  e1 <= e2 -> interval_at cfg e2 <= interval_at cfg e1.
Proof.
  intros Ha Hb H. unfold interval_at.
  apply Q.max_le_compat_l, Q.min_le_compat_r.
  apply quadratic_monotone; auto using timeRemaining_nonneg, timeRemaining_antitone.
Qed.

Lemma interval_at_bounds cfg elapsedTime :
  s_minimumInterval cfg <= s_maximumInterval cfg ->
  s_minimumInterval cfg <= interval_at cfg elapsedTime <= s_maximumInterval cfg.
Proof.
  intros H. unfold interval_at. split.
  - apply Q.le_max_l.
  - apply Q.max_lub; [exact H | apply Q.le_min_r].
Qed.

Lemma expectedTime_delays eoptions now e escript :
  expectedCompletionTime eoptions = Some e ->
  JS.truthy (JS.VNumber e) = true ->
  exists pre rest,
    escript = pre ++ rest
    /\ delays (expectedTimeStrategy eoptions now escript)
       = map (fun i =>
                interval_at (settings eoptions now e)
                  (inject_Z (snd i) - s_jobStartTime (settings eoptions now e)))
             pre.
Proof.
  intros He Ht. rewrite (expectedTimeStrategy_loop _ _ _ _ He Ht).
  destruct (loop_delays (expectedTime_poll (settings eoptions now e)) fst
              (fun _ i => interval_at (settings eoptions now e)
                            (inject_Z (snd i)
                             - s_jobStartTime (settings eoptions now e)))
              (expectedTime_poll_effects (settings eoptions now e)) tt escript)
    as (pre & rest & Hscript & _ & Hd).
  exists pre, rest. split; [exact Hscript|].
  rewrite Hd. apply expectedTime_intervals.
Qed.

(** X15 (every timer is within the bounds).  When the minimum interval in
    effect is not above the maximum one, every timer [expectedTimeStrategy]
    sets, whatever the status checks answer and whatever the clock reads,
    has an interval between the two; with the default options that is
    between 500 and 3000. *)
Theorem expected_timers_within_bounds eoptions now e escript x :
  expectedCompletionTime eoptions = Some e ->
  JS.truthy (JS.VNumber e) = true ->
  default (minimumInterval eoptions) 500 <= default (maximumInterval eoptions) 3000 ->
  In x (delays (expectedTimeStrategy eoptions now escript)) ->
  default (minimumInterval eoptions) 500 <= x <= default (maximumInterval eoptions) 3000.
Proof.
  intros He Ht Hle Hin.
  destruct (expectedTime_delays eoptions now e escript He Ht) as (pre & rest & _ & Hd).
  rewrite Hd in Hin. apply in_map_iff in Hin as (i & <- & _).
  apply (interval_at_bounds (settings eoptions now e)). exact Hle.
Qed.

Lemma expected_timers_within_bounds_witness :
  500 <= interval_at (settings test_options 0 30000) (inject_Z 29000 - 0) <= 3000.
Proof.
  refine (expected_timers_within_bounds test_options 0 30000
            [(pending_answer, 1000%Z); (pending_answer, 29000%Z)] _ _ _ _ _).
  - reflexivity.
  - reflexivity.
  - vm_compute. discriminate.
  - cbn. right. left. reflexivity.
Defined.

(** X16 (the timers shrink as the clock advances).  With non-negative [a]
    and [b], when the readings of [Date.now()] do not go back from one poll
    to the next, the intervals of the timers [expectedTimeStrategy] sets
    never grow from one timer to a later one. *)
Theorem expected_timers_nonincreasing eoptions now e escript :
  expectedCompletionTime eoptions = Some e ->
  JS.truthy (JS.VNumber e) = true ->
  0 <= a (default (coefficients eoptions) {| a := 1 / 30000; b := 1 / 100; c := 500 |}) ->
  0 <= b (default (coefficients eoptions) {| a := 1 / 30000; b := 1 / 100; c := 500 |}) ->
  (forall (i j : nat) u v,
     (i <= j)%nat -> escript !! i = Some u -> escript !! j = Some v ->
     (snd u <= snd v)%Z) ->
  forall (i j : nat) x y,
    (i <= j)%nat ->
    delays (expectedTimeStrategy eoptions now escript) !! i = Some x ->
    delays (expectedTimeStrategy eoptions now escript) !! j = Some y ->
    y <= x.
Proof.
  intros He Ht Ha Hb Hsorted i j x y Hij Hx Hy.
  destruct (expectedTime_delays eoptions now e escript He Ht)
    as (pre & rest & Hscript & Hd).
  rewrite Hd in Hx, Hy. rewrite list_lookup_fmap in Hx, Hy.
  destruct (pre !! i) as [u|] eqn:Hu; [|discriminate].
  destruct (pre !! j) as [v|] eqn:Hv; [|discriminate].
  cbn in Hx, Hy. inversion Hx; inversion Hy; subst x y.
  apply (interval_at_antitone (settings eoptions now e)); [exact Ha | exact Hb |].
  assert (Hle : (snd u <= snd v)%Z).
  { apply (Hsorted i j u v Hij); rewrite Hscript; now apply lookup_app_l_Some. }
  rewrite Zle_Qle in Hle. lra.
Qed.

Lemma expected_timers_nonincreasing_witness :
  interval_at (settings test_options 0 30000) (inject_Z 29000 - 0)
  <= interval_at (settings test_options 0 30000) (inject_Z 1000 - 0).
Proof.
  refine (expected_timers_nonincreasing test_options 0 30000
            [(pending_answer, 1000%Z); (pending_answer, 29000%Z)] _ _ _ _ _
            0%nat 1%nat _ _ _ _ _).
  - reflexivity.
  - reflexivity.
  - vm_compute. discriminate.
  - vm_compute. discriminate.
  - intros [|[|[|i]]] [|[|[|j]]] u v Hij Hu Hv; cbn in Hu, Hv;
      try discriminate; try lia;
      inversion Hu; inversion Hv; subst; cbn; lia.
  - lia.
  - reflexivity.
  - reflexivity.
Defined.

(** X17 (pinned at a bound).  With non-negative [a] and [b] and a minimum
    not above the maximum, if the quadratic has reached the maximum
    interval at some elapsed time, the interval is the maximum interval at
    that time and at every earlier one.  And if the maximum interval is not
    above the minimum one, the interval is the minimum interval at every
    time. *)
Theorem interval_pinned cfg e0 e1 :
  0 <= a (s_coefficients cfg) -> 0 <= b (s_coefficients cfg) ->
  (s_minimumInterval cfg <= s_maximumInterval cfg ->
   s_maximumInterval cfg <= quadratic cfg (timeRemaining cfg e0) ->
   e1 <= e0 ->
   interval_at cfg e1 == s_maximumInterval cfg)
  /\ (s_maximumInterval cfg <= s_minimumInterval cfg ->
      interval_at cfg e1 == s_minimumInterval cfg).
Proof.
  intros Ha Hb. split.
  - intros Hle Hreach He.
    assert (Hq : s_maximumInterval cfg <= quadratic cfg (timeRemaining cfg e1)).
    { eapply Qle_trans; [exact Hreach|].
      apply quadratic_monotone;
        auto using timeRemaining_nonneg, timeRemaining_antitone. }
    unfold interval_at. rewrite (Q.min_r _ _ Hq). apply Q.max_r. exact Hle.
  - intros Hle. unfold interval_at. apply Q.max_l.
    eapply Qle_trans; [apply Q.le_min_r | exact Hle].
Qed.

Lemma interval_pinned_witness :
  interval_at test_settings 1000 == 3000.
Proof.
  assert (Ha : 0 <= a (s_coefficients test_settings)) by (vm_compute; discriminate).
  assert (Hb : 0 <= b (s_coefficients test_settings)) by (vm_compute; discriminate).
  refine (proj1 (interval_pinned test_settings 2000 1000 Ha Hb) _ _ _).
  - vm_compute. discriminate.
  - vm_compute. discriminate.
  - vm_compute. discriminate.
Defined.

End StrategyExtras.

(** * The client library and the strategies over the server *)

Module EndToEnd.
Import Server Client Library Spec Derived.
Import ServerFacts ServerExtras LoopFacts LoopExtras StrategyFacts StrategyExtras.

Lemma create_error_truthy env videos videoID random1 random2 now e :
  snd (create env videos videoID random1 random2 now) = Json400 e ->
  JS.truthy (JS.VString e) = true.
Proof.
  unfold create. destruct videoID as [k|]; [|intros H; inversion H; reflexivity].
  destruct (JS.truthy (JS.VString k)); cbn [negb];
    [|intros H; inversion H; reflexivity].
  destruct (get videos k); cbn [snd]; intros H; inversion H; reflexivity.
Qed.

(** X18 (createJob and the server's answer).  [createJob] returns exactly
    when its request was delivered and the server created the job, and what
    it returns is the server's body.  When the server answers 400 it throws
    'Error creating job: ' followed by the server's error text, and the
    store is as it was.  When the request never reaches the server it
    throws 'Error creating job: ' followed by the failure's message, and the
    store is as it was.  When the request is handled and its response is
    lost it throws that same kind of error although the server has done its
    part: if the job was created, it is in the store, and a retry with the
    same id is answered 'already exists'. *)
Theorem createJob_outcome env videos wire videoID random1 random2 now :
  (forall data,
     snd (createJob env videos wire videoID random1 random2 now) = inl data
     <-> (wire = Delivered
          /\ snd (create env videos videoID random1 random2 now) = data
          /\ exists id message, data = JsonCreated id message))
  /\ (wire = Delivered ->
      fst (createJob env videos wire videoID random1 random2 now)
      = fst (create env videos videoID random1 random2 now)
      /\ forall e,
           snd (create env videos videoID random1 random2 now) = Json400 e ->
           createJob env videos wire videoID random1 random2 now
           = (videos, inr (JS.Error (String.append "Error creating job: " e))))
  /\ (forall message,
        wire = Failed message ->
        createJob env videos wire videoID random1 random2 now
        = (videos, inr (JS.Error (String.append "Error creating job: " message))))
  /\ (forall message,
        wire = Lost message ->
        createJob env videos wire videoID random1 random2 now
        = (fst (create env videos videoID random1 random2 now),
           inr (JS.Error (String.append "Error creating job: " message)))
        /\ forall id text random1' random2' now',
             snd (create env videos videoID random1 random2 now)
             = JsonCreated id text ->
             fst (createJob env videos wire videoID random1 random2 now) !! id
             = Some {| startTime := now;
                       delay := random_delay (MIN_DELAY env) (MAX_DELAY env) random1;
                       status := random_status (ERROR_RATE env) random2 |}
             /\ createJob env
                  (fst (createJob env videos wire videoID random1 random2 now))
                  Delivered (Some id) random1' random2' now'
                = (fst (createJob env videos wire videoID random1 random2 now),
                   inr (JS.Error
                          (String.append "Error creating job: VideoID '"
                             (String.append id
                                "' already exists. Please choose a different ID."))))).
Proof.
  pose proof (create_all_or_nothing_aux env videos videoID random1 random2 now)
    as (H400 & H404 & Hres).
  pose proof (create_error_truthy env videos videoID random1 random2 now) as Htruthy.
  split; [|split; [|split]].
  - intros data. unfold createJob. destruct wire as [|m|m]; cbn [snd].
    + destruct (create env videos videoID random1 random2 now) as [videos' response]
        eqn:Hc.
      cbn [fst snd] in *.
      destruct response as [e|e|id message|v]; cbn [snd].
      * split; [discriminate|]. intros (_ & <- & id & message & H). discriminate H.
      * now contradiction (H404 e).
      * split.
        { intros H. inversion H; subst data. eauto. }
        intros (_ & <- & _). reflexivity.
      * now contradiction (Hres v).
    + split; [discriminate|]. intros (H & _). discriminate H.
    + split; [discriminate|]. intros (H & _). discriminate H.
  - intros ->. unfold createJob.
    destruct (create env videos videoID random1 random2 now) as [videos' response]
      eqn:Hc.
    cbn [fst snd] in *.
    split; [now destruct response|].
    intros e ->. rewrite (H400 e eq_refl).
    unfold error_detail, JS.or. now rewrite (Htruthy e eq_refl).
  - intros message ->. reflexivity.
  - intros message ->. split; [reflexivity|].
    intros id text random1' random2' now' Hc.
    destruct (create_success _ _ _ _ _ _ _ _ Hc) as (_ & Ht & _ & Hs).
    cbn [createJob fst]. rewrite Hs.
    split; [apply lookup_insert_eq|].
    unfold createJob, create. rewrite Ht. cbn [negb].
    rewrite (get_own _ _ _ (lookup_insert_eq _ _ _)).
    unfold error_detail, JS.or. reflexivity.
Qed.

Lemma createJob_outcome_witness :
  createJob default_env (serve default_env ∅ demo_history) Delivered None 0 0 7
  = (serve default_env ∅ demo_history,
     inr (JS.Error "Error creating job: videoID is required in the request body")).
Proof.
  refine (proj2 (proj1 (proj2 (createJob_outcome default_env
                                 (serve default_env ∅ demo_history) Delivered None
                                 0 0 7)) eq_refl)
            "videoID is required in the request body"%string _).
  reflexivity.
Defined.

(** X19 (creating the same job twice).  When [createJob] has returned for
    an id, then after any further requests a second [createJob] with that
    id throws 'Error creating job: VideoID '...' already exists. Please
    choose a different ID.', and the store, with the first job's start time
    and delay, is as it was before the second call. *)
Theorem createJob_twice env videos id data random1 random2 now rs
    random1' random2' now' :
  snd (createJob env videos Delivered (Some id) random1 random2 now) = inl data ->
  exists job,
    serve env (fst (createJob env videos Delivered (Some id) random1 random2 now)) rs
    !! id = Some job
    /\ startTime job = now
    /\ delay job = random_delay (MIN_DELAY env) (MAX_DELAY env) random1
    /\ createJob env
         (serve env (fst (createJob env videos Delivered (Some id) random1 random2 now))
            rs)
         Delivered (Some id) random1' random2' now'
       = (serve env
            (fst (createJob env videos Delivered (Some id) random1 random2 now)) rs,
          inr (JS.Error
                 (String.append "Error creating job: VideoID '"
                    (String.append id
                       "' already exists. Please choose a different ID.")))).
Proof.
  intros Hret. unfold createJob in Hret |- *.
  destruct (create env videos (Some id) random1 random2 now) as [videos1 response]
    eqn:Hc.
  assert (Hcreated : exists message, response = JsonCreated id message).
  { destruct response as [e|e|k message|v]; cbn [snd] in Hret; try discriminate.
    - exists message. f_equal.
      assert (H : snd (create env videos (Some id) random1 random2 now)
                  = JsonCreated k message) by now rewrite Hc.
      apply create_success in H as (Hk & _). congruence.
    - exfalso.
      apply (proj2 (proj2 (create_all_or_nothing_aux env videos (Some id)
                             random1 random2 now)) v).
      now rewrite Hc. }
  destruct Hcreated as (message & ->). cbn [fst].
  assert (Hs : snd (create env videos (Some id) random1 random2 now)
               = JsonCreated id message) by now rewrite Hc.
  apply create_success in Hs as (_ & Ht & _ & Hstore).
  rewrite Hc in Hstore. cbn [fst] in Hstore. subst videos1.
  set (job0 := {| startTime := now;
                  delay := random_delay (MIN_DELAY env) (MAX_DELAY env) random1;
                  status := random_status (ERROR_RATE env) random2 |}).
  destruct (serve_entry env (<[id := job0]> videos) rs id job0 (lookup_insert_eq _ _ _))
    as (job & Hj & Hst & Hd & _).
  exists job. split; [exact Hj|]. split; [exact Hst|]. split; [exact Hd|].
  unfold create. rewrite Ht. cbn [negb]. rewrite (get_own _ _ _ Hj).
  unfold error_detail, JS.or. reflexivity.
Qed.

Lemma createJob_twice_witness :
  exists job,
    serve default_env
      (fst (createJob default_env ∅ Delivered (Some "dup"%string) (1 # 2) (1 # 2) 10))
      [GetStatus (Some "dup"%string) 20]
    !! "dup"%string = Some job
    /\ startTime job = 10
    /\ delay job = random_delay (MIN_DELAY default_env) (MAX_DELAY default_env) (1 # 2)
    /\ createJob default_env
         (serve default_env
            (fst (createJob default_env ∅ Delivered (Some "dup"%string)
                    (1 # 2) (1 # 2) 10))
            [GetStatus (Some "dup"%string) 20])
         Delivered (Some "dup"%string) (1 # 4) (1 # 4) 30
       = (serve default_env
            (fst (createJob default_env ∅ Delivered (Some "dup"%string)
                    (1 # 2) (1 # 2) 10))
            [GetStatus (Some "dup"%string) 20],
          inr (JS.Error
                 "Error creating job: VideoID 'dup' already exists. Please choose a different ID.")).
Proof.
  refine (createJob_twice default_env ∅ "dup"%string
            (JsonCreated "dup"
               "Video translation added. Check status using /status?videoID=dup")
            (1 # 2) (1 # 2) 10 [GetStatus (Some "dup"%string) 20]
            (1 # 4) (1 # 4) 30 _).
  vm_compute. reflexivity.
Defined.

Lemma checkStatus_own videos id job now :
  videos !! id = Some job -> JS.truthy (JS.VString id) = true ->
  checkStatus videos Delivered (Some id) now =
    if due job now then
      (<[id := {| startTime := startTime job; delay := delay job; status := completed |}]> videos,
       Returned (JS.VString "completed"))
    else (videos, Returned (JS.VString (status_name (status job)))).
Proof.
  intros Hj Ht. unfold checkStatus. rewrite (getStatus_own _ _ _ now Hj Ht).
  now destruct (due job now).
Qed.

(** X20 (checkStatus and the server's answer).  In every store the server
    reaches by requests whose [videoID] is absent or a text, for a stored
    job: when its request is delivered, [checkStatus] returns 'error' or
    'completed' when that is the stored status, and for a 'pending' job
    with the numeric delay [q] it returns 'completed', and the job is
    stored as completed, when [q <= now - startTime], and 'pending'
    otherwise, as it does when the delay is NaN; in all other cases the store
    is as it was.  For an id that is neither stored nor the name of a
    property of [Object.prototype] it throws 'Error checking status: Video
    not found'.  When the request never reaches the server it throws
    'Error checking status: ' followed by the failure's message and the
    store is as it was.  When the request is handled and its response is
    lost it throws in the same way, but a job that was due is now stored as
    completed, and the next check that gets through returns 'completed'. *)
Theorem checkStatus_outcome env history wire id now :
  (forall job,
     wire = Delivered ->
     serve env ∅ history !! id = Some job ->
     (status job = error ->
      checkStatus (serve env ∅ history) wire (Some id) now
      = (serve env ∅ history, Returned (JS.VString "error")))
     /\ (status job = completed ->
         checkStatus (serve env ∅ history) wire (Some id) now
         = (serve env ∅ history, Returned (JS.VString "completed")))
     /\ (status job = pending ->
         (forall q : Q,
            delay job = JS.VNumber q ->
            ((q <= inject_Z (now - startTime job))%Q ->
             checkStatus (serve env ∅ history) wire (Some id) now
             = (<[id := {| startTime := startTime job; delay := delay job;
                           status := completed |}]> (serve env ∅ history),
                Returned (JS.VString "completed")))
            /\ ((inject_Z (now - startTime job) < q)%Q ->
                checkStatus (serve env ∅ history) wire (Some id) now
                = (serve env ∅ history, Returned (JS.VString "pending"))))
         /\ (JS.ToNumber (delay job) = None ->
             checkStatus (serve env ∅ history) wire (Some id) now
             = (serve env ∅ history, Returned (JS.VString "pending")))))
  /\ (wire = Delivered ->
      serve env ∅ history !! id = None -> ~ In id Object_prototype ->
      checkStatus (serve env ∅ history) wire (Some id) now
      = (serve env ∅ history,
         Thrown (JS.Error "Error checking status: Video not found")))
  /\ (forall message,
        wire = Failed message ->
        checkStatus (serve env ∅ history) wire (Some id) now
        = (serve env ∅ history,
           Thrown (JS.Error (String.append "Error checking status: " message))))
  /\ (forall message,
        wire = Lost message ->
        checkStatus (serve env ∅ history) wire (Some id) now
        = (fst (getStatus (serve env ∅ history) (Some id) now),
           Thrown (JS.Error (String.append "Error checking status: " message)))
        /\ forall job (q : Q),
             serve env ∅ history !! id = Some job ->
             status job = pending -> delay job = JS.VNumber q ->
             (q <= inject_Z (now - startTime job))%Q ->
             fst (checkStatus (serve env ∅ history) wire (Some id) now) !! id
             = Some {| startTime := startTime job; delay := delay job;
                       status := completed |}
             /\ forall now',
                  snd (checkStatus
                         (fst (checkStatus (serve env ∅ history) wire (Some id) now))
                         Delivered (Some id) now')
                  = Returned (JS.VString "completed")).
Proof.
  assert (Hdue : forall job (q : Q),
            status job = pending -> delay job = JS.VNumber q ->
            due job now = Qle_bool q (inject_Z (now - startTime job))).
  { intros job q Hp Hq. unfold due. rewrite Hp, andb_true_r, ge_number, Hq.
    reflexivity. }
  split; [|split; [|split]].
  - intros job -> Hj.
    assert (Ht : JS.truthy (JS.VString id) = true).
    { eapply keys_truthy_serve; [apply keys_truthy_empty | exact Hj]. }
    rewrite (checkStatus_own _ _ _ now Hj Ht).
    split; [|split].
    + intros Hs. unfold due. rewrite Hs, andb_false_r. reflexivity.
    + intros Hs. unfold due. rewrite Hs, andb_false_r. reflexivity.
    + intros Hp. split.
      * intros q Hq. rewrite (Hdue job q Hp Hq). split.
        { intros Hle. apply Qle_bool_iff in Hle. now rewrite Hle. }
        { intros Hlt.
          destruct (Qle_bool q (inject_Z (now - startTime job))) eqn:Hle.
          - apply Qle_bool_iff in Hle. lra.
          - now rewrite Hp. }
      * intros Hnan. unfold due. now rewrite ge_number, Hnan, Hp.
  - intros -> Hn Hp. unfold checkStatus.
    now rewrite (getStatus_unknown _ _ now Hn Hp).
  - intros message ->. reflexivity.
  - intros message ->. split; [reflexivity|].
    intros job q Hj Hp Hq Hle.
    assert (Ht : JS.truthy (JS.VString id) = true).
    { eapply keys_truthy_serve; [apply keys_truthy_empty | exact Hj]. }
    assert (Hfst : fst (checkStatus (serve env ∅ history) (Lost message) (Some id) now)
                   = <[id := {| startTime := startTime job; delay := delay job;
                                status := completed |}]> (serve env ∅ history)).
    { cbn [checkStatus fst]. rewrite (getStatus_own _ _ _ now Hj Ht).
      rewrite (Hdue job q Hp Hq). apply Qle_bool_iff in Hle. now rewrite Hle. }
    rewrite Hfst. split; [apply lookup_insert_eq|].
    intros now'.
    rewrite (checkStatus_own _ _ _ now' (lookup_insert_eq _ _ _) Ht).
    unfold due. cbn [status]. rewrite andb_false_r. reflexivity.
Qed.

Lemma checkStatus_outcome_witness :
  checkStatus (serve default_env ∅ demo_history) Delivered (Some "t1"%string) 27600
  = (<[ "t1"%string := {| startTime := 100; delay := JS.VNumber 27500;
                          status := completed |} ]> (serve default_env ∅ demo_history),
     Returned (JS.VString "completed")).
Proof.
  assert (H : serve default_env ∅ demo_history !! "t1"%string = Some demo_job)
    by (vm_compute; reflexivity).
  destruct (checkStatus_outcome default_env demo_history Delivered "t1"%string 27600)
    as (Hstored & _).
  destruct (Hstored demo_job eq_refl H) as (_ & _ & Hpending).
  destruct (Hpending eq_refl) as (Hnumber & _).
  apply (proj1 (Hnumber 27500%Q eq_refl)).
  vm_compute. discriminate.
Defined.

(** ** Polling a job of the server *)

Lemma exponential_settles options pre x tail :
  forallb nonterminal pre = true -> nonterminal x = false ->
  promise (exponentialStrategy options (pre ++ x :: tail)) = verdict x
  /\ checks (exponentialStrategy options (pre ++ x :: tail)) = S (length pre).
Proof.
  intros Hpre Hx. unfold exponentialStrategy.
  destruct (loop_first_terminal
              (exponential_poll (or_default (stableInterval options) 8000))
              (fun r => r) (fun st _ => st)
              (exponential_poll_effects (or_default (stableInterval options) 8000))
              (or_default (initialInterval options) 1000) pre x tail Hpre Hx)
    as (Heq & Hp & Hc & _).
  rewrite Heq. auto.
Qed.

Lemma expectedTime_settles eoptions now e epre ex etail :
  expectedCompletionTime eoptions = Some e ->
  JS.truthy (JS.VNumber e) = true ->
  forallb (fun i => nonterminal (fst i)) epre = true -> nonterminal (fst ex) = false ->
  promise (expectedTimeStrategy eoptions now (epre ++ ex :: etail)) = verdict (fst ex)
  /\ checks (expectedTimeStrategy eoptions now (epre ++ ex :: etail)) = S (length epre).
Proof.
  intros He Ht Hpre Hx. rewrite (expectedTimeStrategy_loop _ _ _ _ He Ht).
  destruct (loop_first_terminal (expectedTime_poll (settings eoptions now e)) fst
              (fun _ i => interval_at (settings eoptions now e)
                            (inject_Z (snd i)
                             - s_jobStartTime (settings eoptions now e)))
              (expectedTime_poll_effects (settings eoptions now e))
              tt epre ex etail Hpre Hx) as (Heq & Hp & Hc & _).
  rewrite Heq. auto.
Qed.







(** X22 (polling an unknown job).  For an id that is neither in a store
    the server reaches nor the name of a property of [Object.prototype],
    both strategies with the library's client reject at the first poll
    that reaches the server, with 'Error checking status: Video not found',
    after that one status check and without trying again. *)
Theorem polling_unknown_job env history id options eoptions now e t tail rt rtail :
  serve env ∅ history !! id = None -> ~ In id Object_prototype ->
  expectedCompletionTime eoptions = Some e ->
  JS.truthy (JS.VNumber e) = true ->
  promise (exponentialPolling options (serve env ∅ history) (Some id)
             ((Delivered, t) :: tail))
  = Rejected (JS.Error "Error checking status: Video not found")
  /\ checks (exponentialPolling options (serve env ∅ history) (Some id)
               ((Delivered, t) :: tail))
     = 1%nat
  /\ promise (expectedTimePolling eoptions now (serve env ∅ history) (Some id)
                ((Delivered, t) :: tail) (rt :: rtail))
     = Rejected (JS.Error "Error checking status: Video not found")
  /\ checks (expectedTimePolling eoptions now (serve env ∅ history) (Some id)
               ((Delivered, t) :: tail) (rt :: rtail))
     = 1%nat.
Proof.
  intros Hn Hp He Ht. unfold exponentialPolling, expectedTimePolling.
  cbn [poll_answers].
  assert (Hcs : checkStatus (serve env ∅ history) Delivered (Some id) t
                = (serve env ∅ history,
                   Thrown (JS.Error "Error checking status: Video not found"))).
  { unfold checkStatus.
    now rewrite (getStatus_unknown _ _ t Hn Hp). }
  rewrite Hcs. cbn [combine].
  set (err := JS.Error _).
  destruct (exponential_settles options [] (Thrown err)
              (poll_answers (serve env ∅ history) (Some id) tail) eq_refl eq_refl)
    as (H1 & H2).
  destruct (expectedTime_settles eoptions now e [] (Thrown err, rt)
              (combine (poll_answers (serve env ∅ history) (Some id) tail) rtail)
              He Ht eq_refl eq_refl) as (H3 & H4).
  cbn [app] in H1, H2, H3, H4.
  split; [exact H1|]. split; [exact H2|]. split; [exact H3 | exact H4].
Qed.

Lemma polling_unknown_job_witness :
  promise (exponentialPolling demo_options (serve default_env ∅ demo_history)
             (Some "nope"%string) [(Delivered, 5); (Delivered, 1005)])
  = Rejected (JS.Error "Error checking status: Video not found")
  /\ checks (exponentialPolling demo_options (serve default_env ∅ demo_history)
               (Some "nope"%string) [(Delivered, 5); (Delivered, 1005)])
     = 1%nat.
Proof.
  pose proof (polling_unknown_job default_env demo_history "nope"%string
                demo_options test_options 0 30000 5 [(Delivered, 1005)] 5 []) as H.
  destruct H as (H1 & H2 & _).
  - vm_compute. reflexivity.
  - cbn [In Object_prototype]. intros H.
    repeat (destruct H as [H|H]; [discriminate H|]). exact H.
  - reflexivity.
  - reflexivity.
  - split; [exact H1 | exact H2].
Defined.

(** X23 (polling a failed job).  For a job of a store the server reaches
    whose status is 'error', both strategies with the library's client
    reject at the first poll that reaches the server, with 'Error in video
    translation.', after that one status check, whenever the poll is made. *)
Theorem polling_failed_job env history id job options eoptions now e t tail rt rtail :
  serve env ∅ history !! id = Some job -> status job = error ->
  expectedCompletionTime eoptions = Some e ->
  JS.truthy (JS.VNumber e) = true ->
  promise (exponentialPolling options (serve env ∅ history) (Some id)
             ((Delivered, t) :: tail))
  = Rejected (JS.Error "Error in video translation.")
  /\ checks (exponentialPolling options (serve env ∅ history) (Some id)
               ((Delivered, t) :: tail))
     = 1%nat
  /\ promise (expectedTimePolling eoptions now (serve env ∅ history) (Some id)
                ((Delivered, t) :: tail) (rt :: rtail))
     = Rejected (JS.Error "Error in video translation.")
  /\ checks (expectedTimePolling eoptions now (serve env ∅ history) (Some id)
               ((Delivered, t) :: tail) (rt :: rtail))
     = 1%nat.
Proof.
  intros Hj Herr He Ht.
  assert (Htr : JS.truthy (JS.VString id) = true).
  { eapply keys_truthy_serve; [apply keys_truthy_empty | exact Hj]. }
  unfold exponentialPolling, expectedTimePolling.
  cbn [poll_answers]. rewrite (checkStatus_own _ _ _ t Hj Htr).
  assert (Hdue : due job t = false).
  { unfold due. rewrite Herr. apply andb_false_r. }
  rewrite Hdue, Herr. cbn [status_name combine].
  destruct (exponential_settles options [] (Returned (JS.VString "error"))
              (poll_answers (serve env ∅ history) (Some id) tail) eq_refl eq_refl)
    as (H1 & H2).
  destruct (expectedTime_settles eoptions now e [] (Returned (JS.VString "error"), rt)
              (combine (poll_answers (serve env ∅ history) (Some id) tail) rtail)
              He Ht eq_refl eq_refl) as (H3 & H4).
  cbn [app] in H1, H2, H3, H4.
  split; [exact H1|]. split; [exact H2|]. split; [exact H3 | exact H4].
Qed.

Lemma polling_failed_job_witness :
  promise (exponentialPolling demo_options
             (serve sure_error_env ∅ demo_history) (Some "t1"%string)
             [(Delivered, 1100)])
  = Rejected (JS.Error "Error in video translation.").
Proof.
  pose proof (polling_failed_job sure_error_env demo_history "t1"%string
                {| startTime := 100; delay := JS.VNumber 27500; status := error |}
                demo_options test_options 0 30000 1100 [] 1100 []) as H.
  destruct H as (H1 & _).
  - vm_compute. reflexivity.
  - reflexivity.
  - reflexivity.
  - reflexivity.
  - exact H1.
Defined.

End EndToEnd.
